(** * Backup object of cinder (cinder/objects/backup.py)

    A shallow embedding of the [Backup] versioned object: its field schema,
    change tracking, the persistence methods [create], [save] and
    [get_by_id], the derived properties, [obj_make_compatible] and the
    export codec [encode_record] / [decode_record].

    Python [str] values are modelled by Rocq strings (sequences of
    characters with codes 0..255); integers by [Z]; dictionaries with string
    keys by [gmap string _]; exceptions by an explicit outcome type; the
    object under operation and the database by explicit state. *)

From Stdlib Require Import ZArith String Ascii List Lia.
From Stdlib Require Import Decimal DecimalString DecimalFacts DecimalPos DecimalZ.
From stdpp Require Import gmap strings list fin_maps.

Local Open Scope Z_scope.

(** ** Python values, exceptions and outcomes *)

Module Py.

(** The exceptions that the modelled code raises or lets through. *)
Inductive exn : Type :=
| BinasciiError                              (* binascii.Error *)
| ValueError
| TypeError
| AttributeError
| NotImplementedError                        (* obj_load_attr of the base class *)
| ObjectActionError (action reason : string) (* exception.ObjectActionError *)
| InvalidInput (reason : string)             (* exception.InvalidInput *)
| DBError (name : string).                   (* anything the database layer raises *)

(** Outcome of a Python call: a returned value or a raised exception. *)
Inductive result (A : Type) : Type :=
| Return (a : A)
| Raise (e : exn).
Arguments Return {A} a.
Arguments Raise {A} e.

Definition bind {A B} (r : result A) (k : A -> result B) : result B :=
  match r with
  | Return a => k a
  | Raise e => Raise e
  end.

(** The primitive values held by fields, rows and extra metadata. *)
Inductive pyval : Type :=
| PNone
| PBool (b : bool)
| PInt (z : Z)
| PStr (s : string).

(** What [jsonutils.loads] hands back: a primitive or a mapping of
    primitives. *)
Inductive pyobj : Type :=
| Atom (v : pyval)
| Dict (d : gmap string pyval).

(** Python truth value, [bool(v)]. *)
Definition py_bool (v : pyval) : bool :=
  match v with
  | PNone => false
  | PBool b => b
  | PInt z => negb (z =? 0)
  | PStr s => negb (String.eqb s EmptyString)
  end.

(** Decimal text of an integer, [str(z)]. *)
Definition str_of_Z (z : Z) : string := NilZero.string_of_int (Z.to_int z).

(** [str(v)] for a primitive value. *)
Definition py_str (v : pyval) : string :=
  match v with
  | PNone => "None"
  | PBool true => "True"
  | PBool false => "False"
  | PInt z => str_of_Z z
  | PStr s => s
  end.

Definition code (c : ascii) : Z := Z.of_N (N_of_ascii c).
Definition chr (z : Z) : ascii := ascii_of_N (Z.to_N z).

Definition is_space (c : ascii) : bool :=
  let n := code c in
  (n =? 32) || ((9 <=? n) && (n <=? 13)).

Definition is_digit (c : ascii) : bool :=
  let n := code c in (48 <=? n) && (n <=? 57).

Fixpoint lstrip (s : list ascii) : list ascii :=
  match s with
  | c :: s' => if is_space c then lstrip s' else s
  | [] => []
  end.

Definition strip (s : list ascii) : list ascii :=
  rev (lstrip (rev (lstrip s))).

(** Value of a run of decimal digits, most significant first. *)
Fixpoint digits_value (acc : Z) (s : list ascii) : option Z :=
  match s with
  | [] => Some acc
  | c :: s' =>
      if is_digit c then digits_value (10 * acc + (code c - 48)) s' else None
  end.

(** [int(s)] on a string: surrounding white space, an optional sign and
    at least one decimal digit; anything else is a ValueError. *)
Definition int_of_str (s : string) : result Z :=
  let body := strip (list_ascii_of_string s) in
  let '(neg, ds) :=
    match body with
    | "-"%char :: ds => (true, ds)
    | "+"%char :: ds => (false, ds)
    | _ => (false, body)
    end in
  match ds with
  | [] => Raise ValueError
  | _ => match digits_value 0 ds with
         | Some z => Return (if neg then - z else z)
         | None => Raise ValueError
         end
  end.

End Py.
Export Py.

(** ** base64 as the [base64] and [binascii] modules compute it *)

Module Base64.

Definition table_b2a_base64 : list ascii :=
  list_ascii_of_string
    "ABCDEFGHIJKLMNOPQRSTUVWXYZabcdefghijklmnopqrstuvwxyz0123456789+/".

Definition BASE64_PAD : ascii := "="%char.
Definition NEWLINE : ascii := chr 10.

Definition b2a_char (v : Z) : ascii :=
  nth (Z.to_nat v) table_b2a_base64 BASE64_PAD.

(** The decoding table: the 6-bit value of an alphabet character, 0 for
    the pad character, -1 for every other character. *)
Definition table_a2b_base64 (c : Z) : Z :=
  if (65 <=? c) && (c <=? 90) then c - 65
  else if (97 <=? c) && (c <=? 122) then c - 71
  else if (48 <=? c) && (c <=? 57) then c + 4
  else if c =? 43 then 62
  else if c =? 47 then 63
  else if c =? 61 then 0
  else -1.

(** [binascii.b2a_base64] without its final newline: three bytes make
    four characters, a last group of one or two bytes is padded. *)
Fixpoint b2a_groups (bin : list ascii) : list ascii :=
  match bin with
  | [] => []
  | [a] =>
      let a := code a in
      [ b2a_char (Z.shiftr a 2);
        b2a_char (Z.shiftl (Z.land a 3) 4);
        BASE64_PAD; BASE64_PAD ]
  | [a; b] =>
      let a := code a in
      let b := code b in
      [ b2a_char (Z.shiftr a 2);
        b2a_char (Z.lor (Z.shiftl (Z.land a 3) 4) (Z.shiftr b 4));
        b2a_char (Z.shiftl (Z.land b 15) 2);
        BASE64_PAD ]
  | a :: b :: c :: rest =>
      let a := code a in
      let b := code b in
      let c := code c in
      b2a_char (Z.shiftr a 2)
      :: b2a_char (Z.lor (Z.shiftl (Z.land a 3) 4) (Z.shiftr b 4))
      :: b2a_char (Z.lor (Z.shiftl (Z.land b 15) 2) (Z.shiftr c 6))
      :: b2a_char (Z.land c 63)
      :: b2a_groups rest
  end.

Definition b2a_base64 (bin : list ascii) : list ascii :=
  b2a_groups bin ++ [NEWLINE].

Definition MAXLINESIZE : nat := 76.
Definition MAXBINSIZE : nat := (MAXLINESIZE / 4) * 3.

(** [base64.encodestring]: the input is cut into pieces of MAXBINSIZE
    bytes and each piece becomes one line. *)
Fixpoint encode_pieces (fuel : nat) (s : list ascii) : list ascii :=
  match fuel with
  | O => []
  | S fuel' =>
      match s with
      | [] => []
      | _ => b2a_base64 (take MAXBINSIZE s)
             ++ encode_pieces fuel' (drop MAXBINSIZE s)
      end
  end.

Definition encodestring (s : list ascii) : list ascii :=
  encode_pieces (length s) s.

(** [binascii_find_valid]: the character [num] valid base64 characters
    further on, if there is one. *)
Fixpoint find_valid (s : list ascii) (num : nat) : option ascii :=
  match s with
  | [] => None
  | c :: s' =>
      let b64val := table_a2b_base64 (Z.land (code c) 127) in
      if (code c <=? 127) && negb (b64val =? -1) then
        match num with
        | O => Some c
        | S num' => find_valid s' num'
        end
      else find_valid s' num
  end.

Definition is_pad (o : option ascii) : bool :=
  match o with
  | Some c => code c =? code BASE64_PAD
  | None => false
  end.

(** The loop of [binascii.a2b_base64]. Characters above 0x7f, carriage
    returns, newlines, blanks and characters outside the alphabet are
    skipped; a pad sequence ends the input. The result is the number of
    bits left over and the bytes decoded. *)
Fixpoint a2b_loop (ascii_data : list ascii) (quad_pos leftbits leftchar : Z)
  : Z * list ascii :=
  match ascii_data with
  | [] => (leftbits, [])
  | this_ch :: rest =>
      let c := code this_ch in
      if (127 <? c) || (c =? 13) || (c =? 10) || (c =? 32) then
        a2b_loop rest quad_pos leftbits leftchar
      else if c =? code BASE64_PAD then
        if (quad_pos <? 2)
           || ((quad_pos =? 2) && negb (is_pad (find_valid ascii_data 1)))
        then a2b_loop rest quad_pos leftbits leftchar
        else (0, [])
      else
        let v := table_a2b_base64 c in
        if v =? -1 then a2b_loop rest quad_pos leftbits leftchar
        else
          let quad_pos := Z.land (quad_pos + 1) 3 in
          let leftchar := Z.lor (Z.shiftl leftchar 6) v in
          let leftbits := leftbits + 6 in
          if 8 <=? leftbits then
            let leftbits := leftbits - 8 in
            let byte := chr (Z.land (Z.shiftr leftchar leftbits) 255) in
            let leftchar := Z.land leftchar (Z.shiftl 1 leftbits - 1) in
            let '(lb, out) := a2b_loop rest quad_pos leftbits leftchar in
            (lb, byte :: out)
          else a2b_loop rest quad_pos leftbits leftchar
  end.

(** [binascii.a2b_base64]: bits left over are "Incorrect padding". *)
Definition a2b_base64 (s : list ascii) : result (list ascii) :=
  let '(leftbits, out) := a2b_loop s 0 0 0 in
  if leftbits =? 0 then Return out else Raise BinasciiError.

(** [base64.decodestring]. *)
Definition decodestring (s : list ascii) : result (list ascii) :=
  a2b_base64 s.

End Base64.

(** ** JSON text of flat mappings, as [json.dumps] and [json.loads] treat it *)

Module Json.

Definition L : string -> list ascii := list_ascii_of_string.

Definition DQUOTE : ascii := chr 34.
Definition BACKSLASH : ascii := chr 92.

Definition hex_digit (n : Z) : ascii :=
  nth (Z.to_nat n) (L "0123456789abcdef") "0"%char.

(** One character of a string literal under [ensure_ascii]: the short
    escapes, printable ASCII as it is, everything else as \u00XX. *)
Definition escape_char (c : ascii) : list ascii :=
  let n := code c in
  if n =? 34 then [BACKSLASH; DQUOTE]
  else if n =? 92 then [BACKSLASH; BACKSLASH]
  else if n =? 10 then [BACKSLASH; "n"%char]
  else if n =? 13 then [BACKSLASH; "r"%char]
  else if n =? 9 then [BACKSLASH; "t"%char]
  else if n =? 8 then [BACKSLASH; "b"%char]
  else if n =? 12 then [BACKSLASH; "f"%char]
  else if (32 <=? n) && (n <=? 126) then [c]
  else [BACKSLASH; "u"%char; "0"%char; "0"%char;
        hex_digit (n / 16); hex_digit (n mod 16)].

Definition dumps_str (s : string) : list ascii :=
  DQUOTE :: flat_map escape_char (L s) ++ [DQUOTE].

Definition dumps_val (v : pyval) : list ascii :=
  match v with
  | PNone => L "null"
  | PBool true => L "true"
  | PBool false => L "false"
  | PInt z => L (str_of_Z z)
  | PStr s => dumps_str s
  end.

Definition dumps_item (kv : string * pyval) : list ascii :=
  dumps_str kv.1 ++ L ": " ++ dumps_val kv.2.

Fixpoint dumps_items (l : list (string * pyval)) : list ascii :=
  match l with
  | [] => []
  | kv :: l' =>
      match l' with
      | [] => dumps_item kv
      | _ => dumps_item kv ++ L ", " ++ dumps_items l'
      end
  end.

(** [json.dumps] of a dictionary, with the default separators. *)
Definition dumps (d : gmap string pyval) : list ascii :=
  "{"%char :: dumps_items (map_to_list d) ++ ["}"%char].

Definition hex_value (c : ascii) : option Z :=
  let n := code c in
  if (48 <=? n) && (n <=? 57) then Some (n - 48)
  else if (97 <=? n) && (n <=? 102) then Some (n - 87)
  else if (65 <=? n) && (n <=? 70) then Some (n - 55)
  else None.

Definition hex4 (h1 h2 h3 h4 : ascii) : option Z :=
  match hex_value h1, hex_value h2, hex_value h3, hex_value h4 with
  | Some a, Some b, Some c, Some d => Some (((a * 16 + b) * 16 + c) * 16 + d)
  | _, _, _, _ => None
  end.

Definition unescape (m : Z) : option ascii :=
  if m =? 34 then Some DQUOTE
  else if m =? 92 then Some BACKSLASH
  else if m =? 47 then Some "/"%char
  else if m =? 110 then Some (chr 10)
  else if m =? 114 then Some (chr 13)
  else if m =? 116 then Some (chr 9)
  else if m =? 98 then Some (chr 8)
  else if m =? 102 then Some (chr 12)
  else None.

Definition is_ws (c : ascii) : bool :=
  let n := code c in
  (n =? 32) || (n =? 9) || (n =? 10) || (n =? 13).

Fixpoint skip_ws (s : list ascii) : list ascii :=
  match s with
  | c :: s' => if is_ws c then skip_ws s' else s
  | [] => []
  end.

Definition cons_char (c : ascii) (r : option (list ascii * list ascii))
  : option (list ascii * list ascii) :=
  match r with
  | Some (cs, rest) => Some (c :: cs, rest)
  | None => None
  end.

(** The body of a string literal, after its opening quote: the decoded
    characters and the input after the closing quote. Literal control
    characters are refused (strict mode); characters beyond code 255 are
    outside the modelled strings. *)
Fixpoint scan_string (s : list ascii) : option (list ascii * list ascii) :=
  match s with
  | [] => None
  | c :: rest =>
      let n := code c in
      if n =? 34 then Some ([], rest)
      else if n =? 92 then
        match rest with
        | [] => None
        | e :: rest' =>
            if code e =? 117 then
              match rest' with
              | h1 :: h2 :: h3 :: h4 :: rest'' =>
                  match hex4 h1 h2 h3 h4 with
                  | Some v =>
                      if v <? 256 then cons_char (chr v) (scan_string rest'')
                      else None
                  | None => None
                  end
              | _ => None
              end
            else
              match unescape (code e) with
              | Some ch => cons_char ch (scan_string rest')
              | None => None
              end
        end
      else if (n <? 32) || (127 <? n) then None
      else cons_char c (scan_string rest)
  end.

Fixpoint strip_prefix (p s : list ascii) : option (list ascii) :=
  match p, s with
  | [], _ => Some s
  | a :: p', b :: s' => if Ascii.eqb a b then strip_prefix p' s' else None
  | _ :: _, [] => None
  end.

Definition digit_of_char (c : ascii) : option (uint -> uint) :=
  let n := code c in
  if n =? 48 then Some D0 else if n =? 49 then Some D1
  else if n =? 50 then Some D2 else if n =? 51 then Some D3
  else if n =? 52 then Some D4 else if n =? 53 then Some D5
  else if n =? 54 then Some D6 else if n =? 55 then Some D7
  else if n =? 56 then Some D8 else if n =? 57 then Some D9
  else None.

(** The longest run of decimal digits at the head of the input. *)
Fixpoint scan_digits (s : list ascii) : uint * list ascii :=
  match s with
  | [] => (Nil, [])
  | c :: s' =>
      match digit_of_char c with
      | Some d => let '(u, rest) := scan_digits s' in (d u, rest)
      | None => (Nil, s)
      end
  end.

Definition starts_fraction (s : list ascii) : bool :=
  match s with
  | c :: _ => let n := code c in (n =? 46) || (n =? 101) || (n =? 69)
  | [] => false
  end.

(** An integer literal: an optional minus sign, then 0 or a digit run
    without a leading zero. Literals with a fraction or an exponent are
    floats, which the modelled values do not include. *)
Definition scan_int (s : list ascii) : option (Z * list ascii) :=
  let '(neg, s1) :=
    match s with
    | c :: s' => if code c =? 45 then (true, s') else (false, s)
    | [] => (false, s)
    end in
  let '(u, rest) := scan_digits s1 in
  match u with
  | Nil => None
  | D0 (D0 _ | D1 _ | D2 _ | D3 _ | D4 _ | D5 _ | D6 _ | D7 _ | D8 _ | D9 _) =>
      None
  | _ =>
      if starts_fraction rest then None
      else Some (Z.of_int (if neg then Neg u else Pos u), rest)
  end.

Definition scan_value (s : list ascii) : option (pyval * list ascii) :=
  match s with
  | [] => None
  | c :: rest =>
      if code c =? 34 then
        match scan_string rest with
        | Some (cs, r) => Some (PStr (string_of_list_ascii cs), r)
        | None => None
        end
      else
        match strip_prefix (L "null") s with
        | Some r => Some (PNone, r)
        | None =>
        match strip_prefix (L "true") s with
        | Some r => Some (PBool true, r)
        | None =>
        match strip_prefix (L "false") s with
        | Some r => Some (PBool false, r)
        | None =>
        match scan_int s with
        | Some (z, r) => Some (PInt z, r)
        | None => None
        end end end end
  end.

(** The members of an object, from the first key to the closing brace.
    A key met twice keeps its last value, as a Python dict does. *)
Fixpoint scan_members (fuel : nat) (s : list ascii) (acc : gmap string pyval)
  : option (gmap string pyval * list ascii) :=
  match fuel with
  | O => None
  | S fuel' =>
      match skip_ws s with
      | [] => None
      | q :: s1 =>
          if negb (code q =? 34) then None else
          match scan_string s1 with
          | None => None
          | Some (k, s2) =>
              match skip_ws s2 with
              | [] => None
              | colon :: s3 =>
                  if negb (code colon =? 58) then None else
                  match scan_value (skip_ws s3) with
                  | None => None
                  | Some (v, s4) =>
                      let acc' := <[string_of_list_ascii k := v]> acc in
                      match skip_ws s4 with
                      | [] => None
                      | c :: s5 =>
                          if code c =? 44 then scan_members fuel' s5 acc'
                          else if code c =? 125 then Some (acc', s5)
                          else None
                      end
                  end
              end
          end
      end
  end.

Definition scan_object (s : list ascii)
  : option (gmap string pyval * list ascii) :=
  match skip_ws s with
  | [] => None
  | c :: r =>
      if code c =? 125 then Some (∅, r) else scan_members (length s) s ∅
  end.

Definition scan_document (s : list ascii) : option (pyobj * list ascii) :=
  match s with
  | [] => None
  | c :: r =>
      if code c =? 123 then
        match scan_object r with
        | Some (d, r') => Some (Dict d, r')
        | None => None
        end
      else
        match scan_value s with
        | Some (v, r') => Some (Atom v, r')
        | None => None
        end
  end.

(** [json.loads] on documents that are a primitive or a flat object of
    primitives; a malformed document is a ValueError. *)
Definition loads (s : list ascii) : result pyobj :=
  match scan_document (skip_ws s) with
  | Some (o, rest) =>
      match skip_ws rest with
      | [] => Return o
      | _ => Raise ValueError
      end
  | None => Raise ValueError
  end.

End Json.

(** ** The field schema of [Backup] *)

Inductive field_type : Type := UUIDField | StringField | IntegerField.

Record Field : Type := mkField { ftype : field_type; nullable : bool }.

Definition VERSION : string := "1.1".

(** The class attribute [fields], in the order of the source. *)
Definition fields : list (string * Field) :=
  [ ("id", mkField UUIDField false);
    ("user_id", mkField UUIDField false);
    ("project_id", mkField UUIDField false);
    ("volume_id", mkField UUIDField false);
    ("host", mkField StringField true);
    ("availability_zone", mkField StringField true);
    ("container", mkField StringField true);
    ("parent_id", mkField StringField true);
    ("status", mkField StringField true);
    ("fail_reason", mkField StringField true);
    ("size", mkField IntegerField false);
    ("display_name", mkField StringField true);
    ("display_description", mkField StringField true);
    ("service_metadata", mkField StringField true);
    ("service", mkField StringField true);
    ("object_count", mkField IntegerField false);
    ("temp_volume_id", mkField StringField true);
    ("temp_snapshot_id", mkField StringField true);
    ("num_dependent_backups", mkField IntegerField false) ].

Definition obj_extra_fields : list string :=
  [ "name"; "is_incremental"; "has_dependent_backups" ].

(** [obj_fields] of the base class: the declared names, then the extra ones. *)
Definition obj_fields : list string := fields.*1 ++ obj_extra_fields.

Definition field_of (attr : string) : option Field :=
  snd <$> List.find (fun nf => String.eqb nf.1 attr) fields.

Definition is_IntegerField (f : Field) : bool :=
  match ftype f with
  | IntegerField => true
  | _ => false
  end.

(** The base class singles out fields that hold nested objects; [Backup]
    declares none. *)
Definition is_ObjectField (f : Field) : bool :=
  match ftype f with
  | UUIDField | StringField | IntegerField => false
  end.

(** [Field.coerce]: None is kept by a nullable field and refused by the
    others; any other value is converted by the field's type ([str] for
    UUID and String fields, [int] for Integer fields). *)
Definition coerce (f : Field) (value : pyval) : result pyval :=
  match value with
  | PNone => if nullable f then Return PNone else Raise ValueError
  | _ =>
      match ftype f with
      | UUIDField | StringField => Return (PStr (py_str value))
      | IntegerField =>
          match value with
          | PStr s => bind (int_of_str s) (fun z => Return (PInt z))
          | PBool b => Return (PInt (Z.b2z b))
          | _ => Return value
          end
      end
  end.

(** Modelled from the spec: [utils.convert_version_to_tuple] is not part of
    this file; the version comparison is described as made on the (major,
    minor) tuple of a version string, so the dotted string is cut at its
    dots and each part read as an integer. *)
Fixpoint split_dots (cur : list ascii) (s : list ascii) : list (list ascii) :=
  match s with
  | [] => [rev cur]
  | c :: s' =>
      if code c =? 46 then rev cur :: split_dots [] s'
      else split_dots (c :: cur) s'
  end.

Fixpoint ints_of_parts (ps : list (list ascii)) : result (list Z) :=
  match ps with
  | [] => Return []
  | p :: ps' =>
      bind (int_of_str (string_of_list_ascii p)) (fun z =>
      bind (ints_of_parts ps') (fun zs => Return (z :: zs)))
  end.

Definition convert_version_to_tuple (version_str : string) : result (list Z) :=
  ints_of_parts (split_dots [] (list_ascii_of_string version_str)).

(** [str.encode('utf-8')] on characters with codes below 256. *)
Definition encode_utf8 (s : list ascii) : list ascii :=
  flat_map
    (fun c =>
       let n := code c in
       if n <? 128 then [c]
       else [chr (Z.lor 192 (Z.shiftr n 6)); chr (Z.lor 128 (Z.land n 63))])
    s.

(** ** The object, the database and the methods *)

Section BackupModel.

(** The request context, the configured name template with the [%]
    operator of strings, the interpreter flag [six.PY3], the JSON
    functions of [jsonutils] and the database API are taken as given. *)
Variable context : Type.
Variable backup_name_template : string.
Variable str_mod : string -> pyval -> result string.
Variable PY3 : bool.
Variable jsonutils_dumps : gmap string pyval -> list ascii.
Variable jsonutils_loads : list ascii -> result pyobj.
Variable db : Type.
Variable db_backup_get :
  context -> pyval -> db -> result (gmap string pyval) * db.
Variable db_backup_create :
  context -> gmap string pyval -> db -> result (gmap string pyval) * db.
Variable db_backup_update :
  context -> pyval -> gmap string pyval -> db -> result unit * db.

(** An instance: the values of the fields that are set, the names
    changed since the last reset, and the context. *)
Record Backup : Type := mkBackup {
  obj_values : gmap string pyval;
  changed_fields : gset string;
  obj_context : context
}.

(** Calls made to the database API, kept as a trace. *)
Inductive db_call : Type :=
| BackupGet (ctx : context) (id : pyval)
| BackupCreate (ctx : context) (updates : gmap string pyval)
| BackupUpdate (ctx : context) (id : pyval) (updates : gmap string pyval).

Record world : Type := mkWorld {
  self : Backup;
  database : db;
  db_calls : list db_call
}.

(** Methods run on the world and return or raise; the world as it is
    when an exception is raised is kept. *)
Definition M (A : Type) : Type := world -> result A * world.

Definition ret {A} (a : A) : M A := fun w => (Return a, w).
Definition raise {A} (e : exn) : M A := fun w => (Raise e, w).
Definition mbind {A B} (m : M A) (k : A -> M B) : M B :=
  fun w =>
    match m w with
    | (Return a, w') => k a w'
    | (Raise e, w') => (Raise e, w')
    end.
Definition lift {A} (r : result A) : M A := fun w => (r, w).

Notation "x <~ m ;; k" := (mbind m (fun x => k))
  (at level 100, m at next level, right associativity).

Definition get_self : M Backup := fun w => (Return (self w), w).
Definition put_self (o : Backup) : M unit :=
  fun w => (Return tt, mkWorld o (database w) (db_calls w)).

(** The constructor [cls(context)]: nothing set, nothing changed. *)
Definition new_Backup (ctx : context) : Backup := mkBackup ∅ ∅ ctx.

(** Reading a declared field; an unset one goes to [obj_load_attr],
    which the base class does not implement. *)
Definition obj_get_field (attr : string) : M pyval :=
  o <~ get_self ;;
  match obj_values o !! attr with
  | Some v => ret v
  | None => raise NotImplementedError
  end.

Definition name : M pyval :=
  id <~ obj_get_field "id" ;;
  s <~ lift (str_mod backup_name_template id) ;;
  ret (PStr s).

Definition is_incremental : M pyval :=
  parent_id <~ obj_get_field "parent_id" ;;
  ret (PBool (py_bool parent_id)).

Definition has_dependent_backups : M pyval :=
  num_dependent_backups <~ obj_get_field "num_dependent_backups" ;;
  ret (PBool (py_bool num_dependent_backups)).

(** [getattr(self, attr)] for the names of [obj_fields]. *)
Definition obj_getattr (attr : string) : M pyval :=
  if String.eqb attr "name" then name
  else if String.eqb attr "is_incremental" then is_incremental
  else if String.eqb attr "has_dependent_backups" then has_dependent_backups
  else match field_of attr with
       | Some _ => obj_get_field attr
       | None => raise AttributeError
       end.

(** [setattr(self, attr, value)]: the value is coerced by the field,
    the name is recorded as changed and the value stored. The three
    properties have no setter; any other name would become an ordinary
    attribute, which is no part of the tracked state. *)
Definition obj_setattr (attr : string) (value : pyval) : M unit :=
  match field_of attr with
  | Some f =>
      v <~ lift (coerce f value) ;;
      o <~ get_self ;;
      put_self (mkBackup (<[attr := v]> (obj_values o))
                         ({[attr]} ∪ changed_fields o)
                         (obj_context o))
  | None =>
      if bool_decide (attr ∈ obj_extra_fields) then raise AttributeError
      else ret tt
  end.

Definition obj_attr_is_set (attr : string) : M bool :=
  if bool_decide (attr ∈ obj_fields) then
    o <~ get_self ;; ret (bool_decide (is_Some (obj_values o !! attr)))
  else raise AttributeError.

Definition obj_reset_changes : M unit :=
  o <~ get_self ;; put_self (mkBackup (obj_values o) ∅ (obj_context o)).

(** Modelled from the spec: [cinder_obj_get_changes] belongs to the base
    module; it is described as the mapping of each changed field name to
    its current value. *)
Definition changes_of (o : Backup) : gmap string pyval :=
  filter (fun kv => kv.1 ∈ changed_fields o) (obj_values o).

Definition cinder_obj_get_changes : M (gmap string pyval) :=
  o <~ get_self ;; ret (changes_of o).

Definition get_context : M context :=
  o <~ get_self ;; ret (obj_context o).

Definition set_context (ctx : context) : M unit :=
  o <~ get_self ;; put_self (mkBackup (obj_values o) (changed_fields o) ctx).

(** The database calls, each recorded in the trace. *)
Definition call_backup_create (ctx : context) (updates : gmap string pyval)
  : M (gmap string pyval) :=
  fun w =>
    let '(r, d) := db_backup_create ctx updates (database w) in
    (r, mkWorld (self w) d (db_calls w ++ [BackupCreate ctx updates])).

Definition call_backup_update (ctx : context) (id : pyval)
    (updates : gmap string pyval) : M unit :=
  fun w =>
    let '(r, d) := db_backup_update ctx id updates (database w) in
    (r, mkWorld (self w) d (db_calls w ++ [BackupUpdate ctx id updates])).

Definition call_backup_get (ctx : context) (id : pyval)
  : M (gmap string pyval) :=
  fun w =>
    let '(r, d) := db_backup_get ctx id (database w) in
    (r, mkWorld (self w) d (db_calls w ++ [BackupGet ctx id])).

(** [VersionedObject.obj_make_compatible]: only fields holding nested
    objects are adapted, and only when set. *)
Fixpoint base_obj_make_compatible (fs : list (string * Field))
    (primitive : gmap string pyval) (target_version : string)
  : M (gmap string pyval) :=
  match fs with
  | [] => ret primitive
  | (key, field) :: fs' =>
      if negb (is_ObjectField field) then
        base_obj_make_compatible fs' primitive target_version
      else
        is_set <~ obj_attr_is_set key ;;
        if negb is_set then
          base_obj_make_compatible fs' primitive target_version
        else raise (ObjectActionError "obj_make_compatible" "No rule")
  end.

(** [Backup.obj_make_compatible]; the result is the primitive as the
    call leaves it. *)
Definition obj_make_compatible (primitive : gmap string pyval)
    (target_version : string) : M (gmap string pyval) :=
  primitive <~ base_obj_make_compatible fields primitive target_version ;;
  target_version <~ lift (convert_version_to_tuple target_version) ;;
  ret primitive.

(** The loop of [_from_db_object] over [backup.fields.items()]. *)
Fixpoint load_fields (fs : list (string * Field))
    (db_backup : gmap string pyval) : M unit :=
  match fs with
  | [] => ret tt
  | (attr, field) :: fs' =>
      let value := default PNone (db_backup !! attr) in
      let value :=
        if is_IntegerField field then
          match value with
          | PNone => PInt 0
          | _ => value
          end
        else value in
      _ <~ obj_setattr attr value ;;
      load_fields fs' db_backup
  end.

Definition _from_db_object (ctx : context) (db_backup : gmap string pyval)
  : M Backup :=
  _ <~ load_fields fields db_backup ;;
  _ <~ set_context ctx ;;
  _ <~ obj_reset_changes ;;
  get_self.

(** [get_by_id]: a class method, so the object of the world it runs in
    is the fresh [cls(context)]. *)
Definition get_by_id (ctx : context) (id : pyval) (d : db)
    (calls : list db_call) : result Backup * world :=
  (db_backup <~ call_backup_get ctx id ;; _from_db_object ctx db_backup)
    (mkWorld (new_Backup ctx) d calls).

Definition create : M unit :=
  is_set <~ obj_attr_is_set "id" ;;
  if is_set : bool then
    raise (ObjectActionError "create" "already created")
  else
    updates <~ cinder_obj_get_changes ;;
    ctx <~ get_context ;;
    db_backup <~ call_backup_create ctx updates ;;
    ctx' <~ get_context ;;
    _ <~ _from_db_object ctx' db_backup ;;
    ret tt.

Definition save : M unit :=
  updates <~ cinder_obj_get_changes ;;
  _ <~ (if bool_decide (updates ≠ ∅) then
          ctx <~ get_context ;;
          id <~ obj_getattr "id" ;;
          call_backup_update ctx id updates
        else ret tt) ;;
  obj_reset_changes.

(** [base64.decodestring] then [jsonutils.loads], with the two handlers
    of the [try]; any other exception passes through. *)
Definition decode_record (backup_url : list ascii) : result pyobj :=
  match bind (Base64.decodestring backup_url) jsonutils_loads with
  | Return v => Return v
  | Raise BinasciiError => Raise (InvalidInput "Can't decode backup record.")
  | Raise ValueError => Raise (InvalidInput "Can't parse backup record.")
  | Raise e => Raise e
  end.

(** The names that iterating the object yields: those of [obj_fields]
    that are set or are extra fields. *)
Definition keys_of (o : Backup) : list string :=
  List.filter
    (fun attr => bool_decide (is_Some (obj_values o !! attr))
                 || bool_decide (attr ∈ obj_extra_fields))
    obj_fields.

Definition obj_keys : M (list string) :=
  o <~ get_self ;; ret (keys_of o).

(** [kwargs.update(self)]: each key of the object is read and written
    into [kwargs]. *)
Fixpoint dict_update (ks : list string) (kwargs : gmap string pyval)
  : M (gmap string pyval) :=
  match ks with
  | [] => ret kwargs
  | k :: ks' =>
      v <~ obj_getattr k ;;
      dict_update ks' (<[k := v]> kwargs)
  end.

Definition encode_record (kwargs : gmap string pyval) : M (list ascii) :=
  ks <~ obj_keys ;;
  kwargs <~ dict_update ks kwargs ;;
  let retval := jsonutils_dumps kwargs in
  let retval := if PY3 then encode_utf8 retval else retval in
  ret (Base64.encodestring retval).

(** A caller's assignments, one after the other. *)
Fixpoint assign_all (l : list (string * pyval)) : M unit :=
  match l with
  | [] => ret tt
  | (attr, value) :: l' =>
      _ <~ obj_setattr attr value ;;
      assign_all l'
  end.

End BackupModel.

Arguments obj_values {context} _.
Arguments changed_fields {context} _.
Arguments obj_context {context} _.
Arguments mkBackup {context} _ _ _.
Arguments BackupGet {context} _ _.
Arguments BackupCreate {context} _ _.
Arguments BackupUpdate {context} _ _ _.
Arguments self {context db} _.
Arguments database {context db} _.
Arguments db_calls {context db} _.
Arguments mkWorld {context db} _ _ _.
Arguments ret {context db A} _ _.
Arguments raise {context db A} _ _.
Arguments mbind {context db A B} _ _ _.
Arguments lift {context db A} _ _.
Arguments get_self {context db} _.
Arguments put_self {context db} _ _.
Arguments new_Backup {context} _.
Arguments keys_of {context} _.
Arguments changes_of {context} _.

(** ** Vocabulary of the statements *)

(** The declared-field snapshot of an object: its set declared fields with
    their current values. *)
Definition snapshot {context} (o : Backup context) : gmap string pyval :=
  filter (fun kv => kv.1 ∈ fields.*1) (obj_values o).

(** The mapping that iterating an object yields when its name is [nm]:
    the snapshot and the three extra fields. *)
Definition dict_view {context} (nm : string) (o : Backup context)
  : gmap string pyval :=
  <["name" := PStr nm]>
    (<["is_incremental" :=
         PBool (py_bool (default PNone (obj_values o !! "parent_id")))]>
       (<["has_dependent_backups" :=
            PBool (py_bool
                     (default PNone (obj_values o !! "num_dependent_backups")))]>
          (snapshot o))).

(** A value a row may hold for a field: text for UUID and String fields,
    an integer for Integer fields, null where the field is nullable or an
    integer. *)
Definition matches_field (f : Field) (v : pyval) : bool :=
  match v, ftype f with
  | PNone, IntegerField => true
  | PNone, _ => nullable f
  | PStr _, (UUIDField | StringField) => true
  | PInt _, IntegerField => true
  | _, _ => false
  end.

Definition row_matches_schema (row : gmap string pyval) : bool :=
  forallb (fun nf => matches_field nf.2 (default PNone (row !! nf.1))) fields.

(** The value a field has after loading a row. *)
Definition loaded_value (f : Field) (row : gmap string pyval) (attr : string)
  : pyval :=
  match default PNone (row !! attr) with
  | PNone => if is_IntegerField f then PInt 0 else PNone
  | v => v
  end.

Definition is_alphabet (c : ascii) : bool :=
  let n := code c in
  ((65 <=? n) && (n <=? 90)) || ((97 <=? n) && (n <=? 122))
  || ((48 <=? n) && (n <=? 57)) || (n =? 43) || (n =? 47).

Definition is_line_break (c : ascii) : bool :=
  (code c =? 10) || (code c =? 13).

(** Valid padded base64 in the words of the specification: line breaks
    apart, groups of four alphabet characters, the last group ending in at
    most two pad characters. *)
Definition valid_padded_base64 (s : list ascii) : bool :=
  let body := List.filter (fun c => negb (is_line_break c)) s in
  (Nat.eqb (length body mod 4) 0)
  && match rev body with
     | p1 :: p2 :: rest =>
         if code p1 =? 61 then
           if code p2 =? 61 then forallb is_alphabet rest
           else forallb is_alphabet (p2 :: rest)
         else forallb is_alphabet body
     | _ => forallb is_alphabet body
     end.

(** ** A concrete setting: a name template, an in-memory database *)

Module Sample.

Definition context : Type := unit.

Definition backup_name_template : string := "backup-%s".

(** The [%] operator for a template with one [%s]. *)
Fixpoint subst_s (t arg : list ascii) : option (list ascii) :=
  match t with
  | [] => None
  | c :: t' =>
      match t' with
      | d :: t'' =>
          if (code c =? 37) && (code d =? 115) then Some (arg ++ t'')
          else option_map (cons c) (subst_s t' arg)
      | [] => None
      end
  end.

Definition str_mod (t : string) (v : pyval) : result string :=
  match subst_s (list_ascii_of_string t) (list_ascii_of_string (py_str v)) with
  | Some s => Return (string_of_list_ascii s)
  | None => Raise TypeError
  end.

(** Rows by identifier. *)
Definition db : Type := gmap string (gmap string pyval).

Definition backup_get (ctx : context) (id : pyval) (d : db)
  : result (gmap string pyval) * db :=
  match d !! py_str id with
  | Some row => (Return row, d)
  | None => (Raise (DBError "BackupNotFound"), d)
  end.

Definition backup_create (ctx : context) (values : gmap string pyval) (d : db)
  : result (gmap string pyval) * db :=
  let id := default (PStr "b7") (values !! "id") in
  let row := <["id" := id]> values in
  (Return row, <[py_str id := row]> d).

Definition backup_update (ctx : context) (id : pyval)
    (values : gmap string pyval) (d : db) : result unit * db :=
  match d !! py_str id with
  | Some row => (Return tt, <[py_str id := values ∪ row]> d)
  | None => (Raise (DBError "BackupNotFound"), d)
  end.

(** The record of the specification's scenario. *)
Definition a1 : Backup context :=
  mkBackup
    (<["id" := PStr "a1"]>
       (<["parent_id" := PStr ""]>
          (<["num_dependent_backups" := PInt 0]> ∅)))
    ∅ tt.

(** A record whose count of dependent backups is negative. *)
Definition a2 : Backup context :=
  mkBackup
    (<["id" := PStr "a2"]>
       (<["parent_id" := PNone]>
          (<["num_dependent_backups" := PInt (-1)]> ∅)))
    ∅ tt.

(** A record not yet created: the caller has assigned three fields. *)
Definition fresh : Backup context :=
  mkBackup
    (<["user_id" := PStr "u1"]>
       (<["project_id" := PStr "p1"]>
          (<["volume_id" := PStr "v1"]> ∅)))
    ({["user_id"]} ∪ ({["project_id"]} ∪ {["volume_id"]}))
    tt.

(** A stored row with no integer field filled in. *)
Definition row1 : gmap string pyval :=
  <["id" := PStr "a1"]>
    (<["user_id" := PStr "u1"]>
       (<["project_id" := PStr "p1"]>
          (<["volume_id" := PStr "v1"]>
             (<["status" := PStr "available"]>
                (<["size" := PNone]> ∅))))).

Definition world_of (o : Backup context) : world context db :=
  mkWorld o ∅ [].

(** A stored record whose status the caller has just assigned, in a
    database that holds its row. *)
Definition edited : Backup context :=
  mkBackup
    (<["id" := PStr "a1"]> (<["status" := PStr "error"]> ∅))
    {["status"]} tt.

Definition world_edited : world context db :=
  mkWorld edited {["a1" := row1]} [].

End Sample.

(** ** Vocabulary of the proofs *)

Definition b2a_char_ok (v : Z) : bool :=
  let c := code (Base64.b2a_char v) in
  negb ((127 <? c) || (c =? 13) || (c =? 10) || (c =? 32))
  && negb (c =? code Base64.BASE64_PAD)
  && (Base64.table_a2b_base64 c =? v).

Definition prepend (bin : list ascii) (r : Z * list ascii) : Z * list ascii :=
  (r.1, bin ++ r.2).

Definition nonzero_head (u : uint) : Prop :=
  match u with
  | Nil | D0 _ => False
  | _ => True
  end.

Definition canonical (u : uint) : Prop := u = zero \/ nonzero_head u.

Definition no_digit_ahead (rest : list ascii) : Prop :=
  match rest with
  | c :: _ => Json.digit_of_char c = None
  | [] => True
  end.

(** The characters after which a value of a mapping ends. *)
Definition delimiter_ahead (rest : list ascii) : Prop :=
  match rest with
  | c :: _ => code c = 44 \/ code c = 125
  | [] => False
  end.

Definition int_start (c : ascii) : Prop := code c = 45 \/ 48 <= code c <= 57.

Definition ins (m : gmap string pyval) (kv : string * pyval)
  : gmap string pyval := <[kv.1 := kv.2]> m.

(** The value a declared field takes from a row. *)
Definition field_value (row : gmap string pyval) (attr : string) : pyval :=
  match field_of attr with
  | Some f => loaded_value f row attr
  | None => PNone
  end.

(** The declared names among those assigned. *)
Definition declared_names (l : list (string * pyval)) : list string :=
  List.filter (fun a => bool_decide (a ∈ fields.*1)) l.*1.

Definition ascii_only (s : list ascii) : Prop :=
  Forall (fun c => (code c <? 128) = true) s.


(** ** Deleting a record, and the list of records *)

Section BackupListModel.

Variable context : Type.
Variable backup_name_template : string.
Variable str_mod : string -> pyval -> result string.
Variable db : Type.

(** [context.elevated()], the value None where a context is expected, the
    filters of the list calls and the rest of the database API are taken
    as given. *)
Variable elevated : context -> context.
Variable context_None : context.
Variable db_filters : Type.
Variable db_backup_destroy : context -> pyval -> db -> result unit * db.
Variable db_backup_get_all :
  context -> option db_filters -> db -> result (list (gmap string pyval)) * db.
Variable db_backup_get_all_by_host :
  context -> pyval -> db -> result (list (gmap string pyval)) * db.
Variable db_backup_get_all_by_project :
  context -> pyval -> option db_filters -> db
  -> result (list (gmap string pyval)) * db.
Variable db_backup_get_all_by_volume :
  context -> pyval -> option db_filters -> db
  -> result (list (gmap string pyval)) * db.

Notation "x <~ m ;; k" := (mbind m (fun x => k))
  (at level 100, m at next level, right associativity).

(** [try: body finally: final]: the final part runs however the body
    ends; an exception of its own replaces the outcome of the body. *)
Definition try_finally {A} (body : M context db A) (final : M context db unit)
  : M context db A :=
  fun w =>
    let '(r, w1) := body w in
    match final w1 with
    | (Return _, w2) => (r, w2)
    | (Raise e, w2) => (Raise e, w2)
    end.

(** Modelled from the spec: [obj_as_admin] belongs to the base module; it
    is described as a scoped upgrade of the context to elevated
    privilege, the original context being restored on every exit path. *)
Definition obj_as_admin {A} (body : M context db A) : M context db A :=
  original_context <~ get_context context db ;;
  _ <~ set_context context db (elevated original_context) ;;
  try_finally body (set_context context db original_context).

(** The delete of the database API; it leaves no entry in [db_calls],
    which keeps the reads and writes of rows. *)
Definition call_backup_destroy (ctx : context) (id : pyval)
  : M context db unit :=
  fun w =>
    let '(r, d) := db_backup_destroy ctx id (database w) in
    (r, mkWorld (self w) d (db_calls w)).

Definition destroy : M context db unit :=
  obj_as_admin
    (ctx <~ get_context context db ;;
     id <~ obj_getattr context backup_name_template str_mod db "id" ;;
     call_backup_destroy ctx id).

(** An instance of [BackupList]: the field [objects] when it is set, the
    names changed since the last reset, and the context. *)
Record BackupList : Type := mkBackupList {
  objects : option (list (Backup context));
  list_changed_fields : gset string;
  list_context : context
}.

(** The constructor [cls(context)]. *)
Definition new_BackupList (ctx : context) : BackupList :=
  mkBackupList None ∅ ctx.

(** The loop of [obj_make_list]: each row is loaded into a new [Backup],
    built with no context, and the record is appended to the list that
    [objects] holds. *)
Fixpoint obj_make_list_loop (ctx : context) (objs : list (Backup context))
    (db_list : list (gmap string pyval)) (d : db)
    (calls : list (db_call context))
  : result (list (Backup context)) * (db * list (db_call context)) :=
  match db_list with
  | [] => (Return objs, (d, calls))
  | db_item :: db_list' =>
      match _from_db_object context db ctx db_item
              (mkWorld (new_Backup context_None) d calls) with
      | (Return item, w) =>
          obj_make_list_loop ctx (objs ++ [item]) db_list'
            (database w) (db_calls w)
      | (Raise e, w) => (Raise e, (database w, db_calls w))
      end
  end.

(** [base.obj_make_list]: [objects] is assigned the empty list and filled
    by the loop; then the context is set and the changes are reset. *)
Definition obj_make_list (ctx : context) (list_obj : BackupList)
    (db_list : list (gmap string pyval)) (d : db)
    (calls : list (db_call context))
  : result BackupList * (db * list (db_call context)) :=
  let list_obj :=
    mkBackupList (Some []) ({["objects"]} ∪ list_changed_fields list_obj)
                 (list_context list_obj) in
  match obj_make_list_loop ctx [] db_list d calls with
  | (Return objs, s) =>
      let list_obj :=
        mkBackupList (Some objs) (list_changed_fields list_obj)
                     (list_context list_obj) in
      let list_obj :=
        mkBackupList (objects list_obj) (list_changed_fields list_obj) ctx in
      (Return (mkBackupList (objects list_obj) ∅ (list_context list_obj)), s)
  | (Raise e, s) => (Raise e, s)
  end.

Definition get_all (ctx : context) (filters : option db_filters) (d : db)
    (calls : list (db_call context))
  : result BackupList * (db * list (db_call context)) :=
  match db_backup_get_all ctx filters d with
  | (Return backups, d') =>
      obj_make_list ctx (new_BackupList ctx) backups d' calls
  | (Raise e, d') => (Raise e, (d', calls))
  end.

Definition get_all_by_host (ctx : context) (host : pyval) (d : db)
    (calls : list (db_call context))
  : result BackupList * (db * list (db_call context)) :=
  match db_backup_get_all_by_host ctx host d with
  | (Return backups, d') =>
      obj_make_list ctx (new_BackupList ctx) backups d' calls
  | (Raise e, d') => (Raise e, (d', calls))
  end.

Definition get_all_by_project (ctx : context) (project_id : pyval)
    (filters : option db_filters) (d : db) (calls : list (db_call context))
  : result BackupList * (db * list (db_call context)) :=
  match db_backup_get_all_by_project ctx project_id filters d with
  | (Return backups, d') =>
      obj_make_list ctx (new_BackupList ctx) backups d' calls
  | (Raise e, d') => (Raise e, (d', calls))
  end.

Definition get_all_by_volume (ctx : context) (volume_id : pyval)
    (filters : option db_filters) (d : db) (calls : list (db_call context))
  : result BackupList * (db * list (db_call context)) :=
  match db_backup_get_all_by_volume ctx volume_id filters d with
  | (Return backups, d') =>
      obj_make_list ctx (new_BackupList ctx) backups d' calls
  | (Raise e, d') => (Raise e, (d', calls))
  end.

End BackupListModel.

Arguments objects {context} _.
Arguments list_changed_fields {context} _.
Arguments list_context {context} _.
Arguments mkBackupList {context} _ _ _.
Arguments new_BackupList {context} _.

(** The record that loading a row that fits the schema gives: every
    declared field with the value it takes from the row, no change
    recorded. *)
Definition loaded_record {context} (ctx : context) (row : gmap string pyval)
  : Backup context :=
  mkBackup (foldl (fun m a => <[a := field_value row a]> m) ∅ fields.*1)
           ∅ ctx.

(** A row that leaves a field that is neither nullable nor an integer
    without a value. *)
Definition lacks_required (row : gmap string pyval) : bool :=
  existsb
    (fun nf => negb (nullable nf.2) && negb (is_IntegerField nf.2)
               && match default PNone (row !! nf.1) with
                  | PNone => true
                  | _ => false
                  end)
    fields.

(** A line break or a blank. *)
Definition is_blank (c : ascii) : bool :=
  (code c =? 10) || (code c =? 13) || (code c =? 32).

(** A second concrete setting: contexts that are elevated or not, and a
    database that deletes for elevated contexts only. *)
Module Store.

Definition context : Type := bool.

Definition elevated (ctx : context) : context := true.

Definition db : Type := gmap string (gmap string pyval).

Definition backup_destroy (ctx : context) (id : pyval) (d : db)
  : result unit * db :=
  if ctx then
    match d !! py_str id with
    | Some _ => (Return tt, delete (py_str id) d)
    | None => (Raise (DBError "BackupNotFound"), d)
    end
  else (Raise (DBError "AdminRequired"), d).

Definition backup_get (ctx : context) (id : pyval) (d : db)
  : result (gmap string pyval) * db :=
  match d !! py_str id with
  | Some row => (Return row, d)
  | None => (Raise (DBError "BackupNotFound"), d)
  end.

(** The rows in the order of their identifiers. *)
Definition backup_get_all (ctx : context) (filters : option unit) (d : db)
  : result (list (gmap string pyval)) * db :=
  (Return (map_to_list d).*2, d).

Definition row_a : gmap string pyval :=
  <["id" := PStr "a1"]>
    (<["user_id" := PStr "u1"]>
       (<["project_id" := PStr "p1"]>
          (<["volume_id" := PStr "v1"]>
             (<["status" := PStr "available"]>
                (<["created_at" := PStr "2015-06-01"]> ∅))))).

Definition row_b : gmap string pyval :=
  <["id" := PStr "a2"]>
    (<["user_id" := PStr "u1"]>
       (<["project_id" := PStr "p1"]>
          (<["volume_id" := PStr "v1"]>
             (<["parent_id" := PStr "a1"]>
                (<["size" := PInt 2]> ∅))))).

(** A row with no [volume_id]. *)
Definition row_bad : gmap string pyval :=
  <["id" := PStr "a3"]>
    (<["user_id" := PStr "u1"]>
       (<["project_id" := PStr "p1"]> ∅)).

Definition rows : db := {["a1" := row_a; "a2" := row_b]}.

(** A record of an ordinary user, loaded from [row_a]. *)
Definition user_record : Backup context := loaded_record false row_a.

Definition user_world : world context db := mkWorld user_record rows [].

End Store.

(** * Proofs *)

(** ** Bytes and characters *)

Lemma code_range c : 0 <= code c < 256.
Proof.
  unfold code. pose proof (N_ascii_bounded c). lia.
Qed.

Lemma chr_code c : chr (code c) = c.
Proof.
  unfold chr, code. rewrite N2Z.id. apply ascii_N_embedding.
Qed.

Lemma code_chr z : 0 <= z < 256 -> code (chr z) = z.
Proof.
  intros Hz. unfold chr, code. rewrite N_ascii_embedding by lia. lia.
Qed.

Lemma code_inj c1 c2 : code c1 = code c2 -> c1 = c2.
Proof.
  intros H. rewrite <- (chr_code c1), <- (chr_code c2). by rewrite H.
Qed.

(** A property of all numbers below a bound, settled by running a test. *)
Lemma below_forallb (n : nat) (chk : Z -> bool) :
  forallb chk (map Z.of_nat (seq 0 n)) = true ->
  forall z, 0 <= z < Z.of_nat n -> chk z = true.
Proof.
  intros H z Hz. rewrite forallb_forall in H. apply H.
  apply in_map_iff. exists (Z.to_nat z). split; [lia|].
  apply in_seq. lia.
Qed.

Lemma lor_shiftl_add x y k :
  0 <= k -> 0 <= y < 2 ^ k -> Z.lor (Z.shiftl x k) y = x * 2 ^ k + y.
Proof.
  intros Hk Hy. rewrite <- Z.shiftl_mul_pow2 by lia.
  symmetry. apply Z.add_nocarry_lor.
  apply Z.bits_inj'. intros n Hn. rewrite Z.land_spec, Z.bits_0.
  destruct (Z.lt_ge_cases n k) as [Hlt|Hge].
  - rewrite Z.shiftl_spec_low by lia. reflexivity.
  - destruct (Z.eq_dec y 0) as [->|Hy0].
    + rewrite Z.bits_0. apply andb_false_r.
    + rewrite (Z.bits_above_log2 y n); [apply andb_false_r|lia|].
      apply Z.lt_le_trans with k; [|lia].
      apply Z.log2_lt_pow2; lia.
Qed.

Import Base64.

Lemma b2a_char_spec v :
  0 <= v < 64 ->
  let c := code (b2a_char v) in
  ((127 <? c) || (c =? 13) || (c =? 10) || (c =? 32)) = false
  /\ (c =? code BASE64_PAD) = false
  /\ table_a2b_base64 c = v.
Proof.
  intros Hv.
  assert (H : b2a_char_ok v = true).
  { apply (below_forallb 64); [vm_compute; reflexivity | lia]. }
  unfold b2a_char_ok in H. cbv zeta in *.
  apply andb_prop in H as [H H3]. apply andb_prop in H as [H1 H2].
  apply negb_true_iff in H1, H2. apply Z.eqb_eq in H3. auto.
Qed.

(** One alphabet character read by the decoding loop. *)
Lemma a2b_loop_char v rest qp lb lc :
  0 <= v < 64 ->
  a2b_loop (b2a_char v :: rest) qp lb lc =
    if 8 <=? lb + 6 then
      let '(l, out) :=
        a2b_loop rest (Z.land (qp + 1) 3) (lb + 6 - 8)
          (Z.land (Z.lor (Z.shiftl lc 6) v) (Z.shiftl 1 (lb + 6 - 8) - 1)) in
      (l, chr (Z.land (Z.shiftr (Z.lor (Z.shiftl lc 6) v) (lb + 6 - 8)) 255)
            :: out)
    else a2b_loop rest (Z.land (qp + 1) 3) (lb + 6) (Z.lor (Z.shiftl lc 6) v).
Proof.
  intros Hv. destruct (b2a_char_spec v Hv) as (H1 & H2 & H3).
  cbn [a2b_loop]. cbv zeta in *. rewrite H1, H2, H3.
  replace (v =? -1) with false by (symmetry; apply Z.eqb_neq; lia).
  reflexivity.
Qed.

Lemma a2b_loop_newline rest qp lb lc :
  a2b_loop (NEWLINE :: rest) qp lb lc = a2b_loop rest qp lb lc.
Proof. reflexivity. Qed.

Lemma sextets_range a b c :
  0 <= a < 256 -> 0 <= b < 256 -> 0 <= c < 256 ->
  0 <= Z.shiftr a 2 < 64
  /\ 0 <= Z.lor (Z.shiftl (Z.land a 3) 4) (Z.shiftr b 4) < 64
  /\ 0 <= Z.lor (Z.shiftl (Z.land b 15) 2) (Z.shiftr c 6) < 64
  /\ 0 <= Z.land c 63 < 64
  /\ 0 <= Z.shiftl (Z.land a 3) 4 < 64
  /\ 0 <= Z.shiftl (Z.land b 15) 2 < 64.
Proof.
  intros Ha Hb Hc.
  change 3 with (Z.ones 2). change 15 with (Z.ones 4). change 63 with (Z.ones 6).
  rewrite !Z.land_ones by lia.
  rewrite !lor_shiftl_add; rewrite ?Z.shiftl_mul_pow2, ?Z.shiftr_div_pow2 by lia;
    change (2 ^ 2) with 4; change (2 ^ 4) with 16; change (2 ^ 6) with 64;
    try lia.
  all: repeat split; try (apply Z.div_pos; lia);
    Z.div_mod_to_equations; lia.
Qed.

Lemma quad_bytes a b c :
  0 <= a < 256 -> 0 <= b < 256 -> 0 <= c < 256 ->
  let q1 := Z.shiftr a 2 in
  let q2 := Z.lor (Z.shiftl (Z.land a 3) 4) (Z.shiftr b 4) in
  let q3 := Z.lor (Z.shiftl (Z.land b 15) 2) (Z.shiftr c 6) in
  let q4 := Z.land c 63 in
  let lc1 := Z.lor (Z.shiftl 0 6) q1 in
  let lc2 := Z.lor (Z.shiftl lc1 6) q2 in
  let lc3 := Z.lor (Z.shiftl (Z.land lc2 (Z.shiftl 1 4 - 1)) 6) q3 in
  let lc4 := Z.lor (Z.shiftl (Z.land lc3 (Z.shiftl 1 2 - 1)) 6) q4 in
  Z.land (Z.shiftr lc2 4) 255 = a
  /\ Z.land (Z.shiftr lc3 2) 255 = b
  /\ Z.land (Z.shiftr lc4 0) 255 = c
  /\ Z.land lc4 (Z.shiftl 1 0 - 1) = 0.
Proof.
  intros Ha Hb Hc. cbv zeta.
  destruct (sextets_range a b c Ha Hb Hc) as (R1 & R2 & R3 & R4 & _).
  set (q1 := Z.shiftr a 2) in *.
  set (q2 := Z.lor (Z.shiftl (Z.land a 3) 4) (Z.shiftr b 4)) in *.
  set (q3 := Z.lor (Z.shiftl (Z.land b 15) 2) (Z.shiftr c 6)) in *.
  set (q4 := Z.land c 63) in *.
  change (Z.shiftl 1 4 - 1) with (Z.ones 4).
  change (Z.shiftl 1 2 - 1) with (Z.ones 2).
  change (Z.shiftl 1 0 - 1) with 0.
  change 255 with (Z.ones 8).
  rewrite Z.land_0_r.
  rewrite !(Z.land_ones _ 8), !(Z.land_ones _ 4), !(Z.land_ones _ 2) by lia.
  assert (E1 : q1 = a / 4).
  { subst q1. by rewrite Z.shiftr_div_pow2 by lia. }
  assert (E2 : q2 = (a mod 4) * 16 + b / 16).
  { subst q2. change 3 with (Z.ones 2). rewrite Z.land_ones by lia.
    rewrite Z.shiftr_div_pow2 by lia.
    rewrite lor_shiftl_add; [reflexivity|lia|].
    change (2 ^ 4) with 16. Z.div_mod_to_equations; lia. }
  assert (E3 : q3 = (b mod 16) * 4 + c / 64).
  { subst q3. change 15 with (Z.ones 4). rewrite Z.land_ones by lia.
    rewrite Z.shiftr_div_pow2 by lia.
    rewrite lor_shiftl_add; [reflexivity|lia|].
    change (2 ^ 6) with 64. change (2 ^ 2) with 4.
    Z.div_mod_to_equations; lia. }
  assert (E4 : q4 = c mod 64).
  { subst q4. change 63 with (Z.ones 6). by rewrite Z.land_ones by lia. }
  rewrite !(lor_shiftl_add _ _ 6) by (change (2 ^ 6) with 64; lia).
  rewrite !Z.shiftr_div_pow2 by lia.
  change (2 ^ 6) with 64. change (2 ^ 4) with 16. change (2 ^ 2) with 4.
  change (2 ^ 8) with 256. change (2 ^ 0) with 1.
  clearbody q1 q2 q3 q4. subst.
  repeat split; Z.div_mod_to_equations; lia.
Qed.

Lemma list_ind3 {A} (P : list A -> Prop) :
  P [] -> (forall a, P [a]) -> (forall a b, P [a; b]) ->
  (forall a b c l, P l -> P (a :: b :: c :: l)) ->
  forall l, P l.
Proof.
  intros H0 H1 H2 H3.
  fix IH 1. intros [|a [|b [|c l]]]; [exact H0|apply H1|apply H2|].
  apply H3, IH.
Qed.

(** Four characters of a full group give back its three bytes and leave
    the decoder where it was. *)
Lemma a2b_loop_quad a b c bin rest :
  a2b_loop (b2a_groups (a :: b :: c :: bin) ++ rest) 0 0 0 =
  prepend [a; b; c] (a2b_loop (b2a_groups bin ++ rest) 0 0 0).
Proof.
  pose proof (code_range a) as Ha. pose proof (code_range b) as Hb.
  pose proof (code_range c) as Hc.
  destruct (sextets_range _ _ _ Ha Hb Hc) as (R1 & R2 & R3 & R4 & _).
  destruct (quad_bytes _ _ _ Ha Hb Hc) as (B1 & B2 & B3 & B4).
  cbv zeta in *.
  cbn [b2a_groups]. cbv zeta. rewrite <- !app_comm_cons.
  rewrite (a2b_loop_char _ _ _ _ _ R1).
  change (8 <=? 0 + 6) with false. cbv iota. change (0 + 6) with 6.
  rewrite (a2b_loop_char _ _ _ _ _ R2).
  change (8 <=? 6 + 6) with true. cbv iota.
  change (6 + 6 - 8) with 4.
  rewrite (a2b_loop_char _ _ _ _ _ R3).
  change (8 <=? 4 + 6) with true. cbv iota.
  change (4 + 6 - 8) with 2.
  rewrite (a2b_loop_char _ _ _ _ _ R4).
  change (8 <=? 2 + 6) with true. cbv iota.
  change (2 + 6 - 8) with 0.
  rewrite B1, B2, B3, B4, !chr_code.
  change (Z.land (Z.land (Z.land (Z.land (0 + 1) 3 + 1) 3 + 1) 3 + 1) 3) with 0.
  destruct (a2b_loop (b2a_groups bin ++ rest) 0 0 0) as [l out].
  reflexivity.
Qed.

Lemma a2b_loop_tail1 a rest :
  a2b_loop (b2a_groups [a] ++ rest) 0 0 0 = (0, [a]).
Proof.
  pose proof (code_range a) as Ha.
  destruct (sextets_range _ _ _ Ha Ha Ha) as (R1 & _ & _ & _ & R2 & _).
  assert (B1 : Z.land (Z.shiftr (Z.lor (Z.shiftl (Z.lor (Z.shiftl 0 6)
                 (Z.shiftr (code a) 2)) 6) (Z.shiftl (Z.land (code a) 3) 4)) 4)
                 255 = code a).
  { set (q1 := Z.shiftr (code a) 2) in *.
    set (q2 := Z.shiftl (Z.land (code a) 3) 4) in *.
    assert (E1 : q1 = code a / 4).
    { subst q1. by rewrite Z.shiftr_div_pow2 by lia. }
    assert (E2 : q2 = (code a mod 4) * 16).
    { subst q2. change 3 with (Z.ones 2). rewrite Z.land_ones by lia.
      by rewrite Z.shiftl_mul_pow2 by lia. }
    change 255 with (Z.ones 8). rewrite Z.land_ones by lia.
    rewrite !(lor_shiftl_add _ _ 6) by (change (2 ^ 6) with 64; lia).
    rewrite Z.shiftr_div_pow2 by lia.
    change (2 ^ 6) with 64. change (2 ^ 4) with 16. change (2 ^ 8) with 256.
    clearbody q1 q2. subst. Z.div_mod_to_equations; lia. }
  cbn [b2a_groups]. cbv zeta. rewrite <- !app_comm_cons.
  rewrite (a2b_loop_char _ _ _ _ _ R1).
  change (8 <=? 0 + 6) with false. cbv iota. change (0 + 6) with 6.
  rewrite (a2b_loop_char _ _ _ _ _ R2).
  change (8 <=? 6 + 6) with true. cbv iota. change (6 + 6 - 8) with 4.
  rewrite B1, chr_code.
  reflexivity.
Qed.

Lemma a2b_loop_tail2 a b rest :
  a2b_loop (b2a_groups [a; b] ++ rest) 0 0 0 = (0, [a; b]).
Proof.
  pose proof (code_range a) as Ha. pose proof (code_range b) as Hb.
  destruct (sextets_range _ _ _ Ha Hb Hb) as (R1 & R2 & _ & _ & _ & R3).
  set (q1 := Z.shiftr (code a) 2) in *.
  set (q2 := Z.lor (Z.shiftl (Z.land (code a) 3) 4) (Z.shiftr (code b) 4)) in *.
  set (q3 := Z.shiftl (Z.land (code b) 15) 2) in *.
  assert (B : Z.land (Z.shiftr (Z.lor (Z.shiftl (Z.lor (Z.shiftl 0 6) q1) 6)
                 q2) 4) 255 = code a
              /\ Z.land (Z.shiftr (Z.lor (Z.shiftl (Z.land (Z.lor (Z.shiftl
                 (Z.lor (Z.shiftl 0 6) q1) 6) q2) (Z.shiftl 1 4 - 1)) 6) q3) 2)
                 255 = code b).
  { assert (E1 : q1 = code a / 4).
    { subst q1. by rewrite Z.shiftr_div_pow2 by lia. }
    assert (E2 : q2 = (code a mod 4) * 16 + code b / 16).
    { subst q2. change 3 with (Z.ones 2). rewrite Z.land_ones by lia.
      rewrite Z.shiftr_div_pow2 by lia.
      rewrite lor_shiftl_add; [reflexivity|lia|].
      change (2 ^ 4) with 16. Z.div_mod_to_equations; lia. }
    assert (E3 : q3 = (code b mod 16) * 4).
    { subst q3. change 15 with (Z.ones 4). rewrite Z.land_ones by lia.
      by rewrite Z.shiftl_mul_pow2 by lia. }
    change (Z.shiftl 1 4 - 1) with (Z.ones 4).
    change 255 with (Z.ones 8).
    rewrite !(Z.land_ones _ 8), !(Z.land_ones _ 4) by lia.
    rewrite !(lor_shiftl_add _ _ 6) by (change (2 ^ 6) with 64; lia).
    rewrite !Z.shiftr_div_pow2 by lia.
    change (2 ^ 6) with 64. change (2 ^ 4) with 16. change (2 ^ 2) with 4.
    change (2 ^ 8) with 256.
    clearbody q1 q2 q3. subst. split; Z.div_mod_to_equations; lia. }
  destruct B as [B1 B2].
  cbn [b2a_groups]. cbv zeta. rewrite <- !app_comm_cons.
  fold q1 q2 q3.
  rewrite (a2b_loop_char _ _ _ _ _ R1).
  change (8 <=? 0 + 6) with false. cbv iota. change (0 + 6) with 6.
  rewrite (a2b_loop_char _ _ _ _ _ R2).
  change (8 <=? 6 + 6) with true. cbv iota. change (6 + 6 - 8) with 4.
  rewrite (a2b_loop_char _ _ _ _ _ R3).
  change (8 <=? 4 + 6) with true. cbv iota. change (4 + 6 - 8) with 2.
  rewrite B1, B2, !chr_code.
  reflexivity.
Qed.

(** Decoding the characters of a piece followed by a newline: a piece of
    whole groups lets the decoder go on, a padded piece ends the input. *)
Lemma a2b_loop_groups bin rest :
  a2b_loop (b2a_groups bin ++ NEWLINE :: rest) 0 0 0 =
    if Nat.eqb (length bin mod 3) 0
    then prepend bin (a2b_loop rest 0 0 0)
    else (0, bin).
Proof.
  induction bin as [|a|a b|a b c bin IH] using list_ind3.
  - cbn [b2a_groups app length]. rewrite a2b_loop_newline.
    destruct (a2b_loop rest 0 0 0); reflexivity.
  - apply a2b_loop_tail1.
  - apply a2b_loop_tail2.
  - rewrite a2b_loop_quad, IH.
    replace (length (a :: b :: c :: bin) mod 3)%nat
      with (length bin mod 3)%nat.
    2:{ cbn [length]. replace (S (S (S (length bin)))) with (length bin + 1 * 3)%nat by lia.
        by rewrite Nat.Div0.mod_add. }
    destruct (Nat.eqb (length bin mod 3) 0); [|reflexivity].
    destruct (a2b_loop rest 0 0 0); reflexivity.
Qed.

Lemma encode_pieces_nil fuel : encode_pieces fuel [] = [].
Proof. destruct fuel; reflexivity. Qed.

Lemma a2b_loop_encode_pieces fuel s :
  (length s <= fuel)%nat -> a2b_loop (encode_pieces fuel s) 0 0 0 = (0, s).
Proof.
  revert s. induction fuel as [|fuel IH]; intros s Hlen.
  - destruct s; [reflexivity | cbn in Hlen; lia].
  - destruct s as [|a s]; [reflexivity|].
    cbn [encode_pieces]. unfold b2a_base64.
    rewrite <- app_assoc. cbn [app].
    rewrite a2b_loop_groups.
    change MAXBINSIZE with 57%nat.
    destruct (Nat.le_gt_cases 57 (length (a :: s))) as [Hge|Hlt].
    + rewrite length_take, Nat.min_l by lia.
      change (Nat.eqb (57 mod 3) 0) with true. cbv iota.
      rewrite IH.
      * unfold prepend. cbn [fst snd]. by rewrite take_drop.
      * rewrite length_drop. cbn [length] in *. lia.
    + rewrite take_ge by lia. rewrite drop_ge by lia.
      rewrite encode_pieces_nil.
      destruct (Nat.eqb (length (a :: s) mod 3) 0); [|reflexivity].
      unfold prepend. cbn. by rewrite app_nil_r.
Qed.

(** base64 round trip: what [encodestring] writes, [decodestring] reads
    back. *)
Lemma decodestring_encodestring s :
  decodestring (encodestring s) = Return s.
Proof.
  unfold decodestring, a2b_base64, encodestring.
  by rewrite a2b_loop_encode_pieces.
Qed.

(** ** JSON text *)

Import Json.

Lemma hex_digits_value n :
  0 <= n < 256 ->
  hex4 "0" "0" (hex_digit (n / 16)) (hex_digit (n mod 16)) = Some n.
Proof.
  intros Hn.
  pose (chk := fun n =>
    match hex4 "0" "0" (hex_digit (n / 16)) (hex_digit (n mod 16)) with
    | Some m => m =? n
    | None => false
    end).
  assert (H : chk n = true).
  { apply (below_forallb 256); [vm_compute; reflexivity | lia]. }
  unfold chk in H.
  destruct (hex4 _ _ _ _) as [m|]; [|discriminate].
  apply Z.eqb_eq in H. by subst.
Qed.

Ltac code_const :=
  match goal with
  | H : (code ?c =? ?k) = true |- _ =>
      apply Z.eqb_eq in H;
      let E := fresh in
      assert (E : c = chr k) by (rewrite <- H; symmetry; apply chr_code);
      subst c; clear H
  end.

(** Reading back one escaped character. *)
Lemma scan_string_escape c rest :
  scan_string (escape_char c ++ rest) = cons_char c (scan_string rest).
Proof.
  unfold escape_char. cbv zeta.
  destruct (code c =? 34) eqn:E1; [code_const; reflexivity|].
  destruct (code c =? 92) eqn:E2; [code_const; reflexivity|].
  destruct (code c =? 10) eqn:E3; [code_const; reflexivity|].
  destruct (code c =? 13) eqn:E4; [code_const; reflexivity|].
  destruct (code c =? 9) eqn:E5; [code_const; reflexivity|].
  destruct (code c =? 8) eqn:E6; [code_const; reflexivity|].
  destruct (code c =? 12) eqn:E7; [code_const; reflexivity|].
  destruct ((32 <=? code c) && (code c <=? 126)) eqn:E8.
  - cbn [app scan_string]. rewrite E1, E2.
    apply andb_prop in E8 as [Ha Hb].
    apply Z.leb_le in Ha, Hb.
    replace (code c <? 32) with false by (symmetry; apply Z.ltb_ge; lia).
    replace (127 <? code c) with false by (symmetry; apply Z.ltb_ge; lia).
    reflexivity.
  - pose proof (code_range c) as Hc.
    cbn [app scan_string].
    change (code BACKSLASH =? 34) with false.
    change (code BACKSLASH =? 92) with true.
    change (code "u" =? 117) with true. cbv iota.
    rewrite hex_digits_value by lia.
    replace (code c <? 256) with true by (symmetry; apply Z.ltb_lt; lia).
    by rewrite chr_code.
Qed.

Lemma scan_string_body cs rest :
  scan_string (flat_map escape_char cs ++ DQUOTE :: rest) = Some (cs, rest).
Proof.
  induction cs as [|c cs IH]; [reflexivity|].
  cbn [flat_map]. rewrite <- app_assoc, scan_string_escape, IH. reflexivity.
Qed.

Lemma scan_string_dumps s rest :
  exists body, dumps_str s ++ rest = DQUOTE :: body
    /\ scan_string body = Some (L s, rest).
Proof.
  exists (flat_map escape_char (L s) ++ DQUOTE :: rest). split.
  - unfold dumps_str. cbn [app]. by rewrite <- app_assoc.
  - apply scan_string_body.
Qed.

(** *** Integer literals *)

Lemma nzhead_not_D0 d u : nzhead d <> D0 u.
Proof. induction d; cbn; congruence. Qed.

Lemma to_uint_head p : nonzero_head (Pos.to_uint p).
Proof.
  pose proof (DecimalPos.Unsigned.to_of (Pos.to_uint p)) as H.
  rewrite DecimalPos.Unsigned.of_to in H. cbn [N.to_uint] in H.
  pose proof (DecimalPos.Unsigned.to_uint_nonzero p) as Hz.
  unfold unorm in H.
  pose proof (nzhead_not_D0 (Pos.to_uint p)) as Hn.
  destruct (nzhead (Pos.to_uint p)) eqn:E;
    try (rewrite H; exact I).
  - congruence.
  - exfalso. eapply Hn. reflexivity.
Qed.

Lemma scan_digits_uint u rest :
  no_digit_ahead rest ->
  scan_digits (L (NilEmpty.string_of_uint u) ++ rest) = (u, rest).
Proof.
  intros Hrest. induction u; cbn [NilEmpty.string_of_uint L list_ascii_of_string app];
    try (cbn [scan_digits];
         match goal with
         | |- context [digit_of_char ?c] =>
             let v := eval vm_compute in (digit_of_char c) in
             change (digit_of_char c) with v
         end; cbv iota; fold L; rewrite IHu; reflexivity).
  destruct rest as [|c r]; [reflexivity|].
  cbn [scan_digits]. cbn in Hrest. by rewrite Hrest.
Qed.

Lemma delimiter_no_digit rest : delimiter_ahead rest -> no_digit_ahead rest.
Proof.
  destruct rest as [|c r]; [done|]. cbn. unfold digit_of_char. cbv zeta.
  intros [H|H]; rewrite H; reflexivity.
Qed.

Lemma delimiter_no_fraction rest :
  delimiter_ahead rest -> starts_fraction rest = false.
Proof.
  destruct rest as [|c r]; [done|]. cbn.
  intros [H|H]; rewrite H; reflexivity.
Qed.

Lemma scan_int_pos u rest :
  canonical u -> delimiter_ahead rest ->
  scan_int (L (NilEmpty.string_of_uint u) ++ rest) = Some (Z.of_int (Pos u), rest).
Proof.
  intros Hu Hd.
  pose proof (delimiter_no_digit _ Hd) as Hnd.
  pose proof (delimiter_no_fraction _ Hd) as Hnf.
  unfold scan_int.
  set (s := L (NilEmpty.string_of_uint u) ++ rest).
  assert (Hfirst : match s with
                   | c :: s' => if code c =? 45 then (true, s') else (false, s)
                   | [] => (false, s)
                   end = (false, s)).
  { subst s. destruct Hu as [->|Hu]; [reflexivity|].
    destruct u; try done; reflexivity. }
  rewrite Hfirst. subst s. rewrite scan_digits_uint by done.
  destruct Hu as [->|Hu]; [by rewrite Hnf|].
  destruct u; try done; by rewrite Hnf.
Qed.

Lemma scan_int_neg u rest :
  nonzero_head u -> delimiter_ahead rest ->
  scan_int ("-"%char :: L (NilEmpty.string_of_uint u) ++ rest)
  = Some (Z.of_int (Neg u), rest).
Proof.
  intros Hu Hd.
  pose proof (delimiter_no_digit _ Hd) as Hnd.
  pose proof (delimiter_no_fraction _ Hd) as Hnf.
  unfold scan_int.
  change (code "-" =? 45) with true. cbv iota.
  rewrite scan_digits_uint by done.
  destruct u; try done; by rewrite Hnf.
Qed.

Lemma string_of_uint_nonnil u :
  u <> Nil -> NilZero.string_of_uint u = NilEmpty.string_of_uint u.
Proof. destruct u; [done|reflexivity..]. Qed.

Lemma scan_int_str_of_Z z rest :
  delimiter_ahead rest ->
  scan_int (L (str_of_Z z) ++ rest) = Some (z, rest).
Proof.
  intros Hd.
  unfold str_of_Z. rewrite <- (DecimalZ.of_to z) at 2.
  destruct z as [|p|p]; cbn [Z.to_int NilZero.string_of_int].
  - rewrite string_of_uint_nonnil by done.
    apply scan_int_pos; [by left | done].
  - pose proof (to_uint_head p) as Hh.
    rewrite string_of_uint_nonnil by (intros E; by rewrite E in Hh).
    apply scan_int_pos; [by right | done].
  - pose proof (to_uint_head p) as Hh.
    rewrite string_of_uint_nonnil by (intros E; by rewrite E in Hh).
    apply scan_int_neg; done.
Qed.

(** *** Values, members and documents *)

Lemma uint_chars_head u rest :
  u <> Nil ->
  exists c s', L (NilEmpty.string_of_uint u) ++ rest = c :: s'
               /\ 48 <= code c <= 57.
Proof.
  intros Hu. destruct u; try done;
    cbn [NilEmpty.string_of_uint L list_ascii_of_string app];
    eexists _, _; (split; [reflexivity | vm_compute; split; discriminate]).
Qed.

Lemma str_of_Z_head z rest :
  exists c s', L (str_of_Z z) ++ rest = c :: s' /\ int_start c.
Proof.
  unfold str_of_Z, int_start.
  destruct z as [|p|p]; cbn [Z.to_int NilZero.string_of_int].
  - eexists _, _. split; [reflexivity|]. right. vm_compute. split; discriminate.
  - pose proof (to_uint_head p) as Hh.
    assert (Hn : Pos.to_uint p <> Nil) by (intros E; by rewrite E in Hh).
    rewrite string_of_uint_nonnil by done.
    destruct (uint_chars_head _ rest Hn) as (c & s' & E & Hc). eauto.
  - eexists _, _. split; [reflexivity|]. by left.
Qed.

Lemma scan_value_int c s :
  int_start c ->
  scan_value (c :: s) =
    match scan_int (c :: s) with
    | Some (z, r) => Some (PInt z, r)
    | None => None
    end.
Proof.
  intros Hc. unfold scan_value.
  replace (code c =? 34) with false
    by (symmetry; apply Z.eqb_neq; destruct Hc; lia).
  assert (Hne : forall a, ~ int_start a -> Ascii.eqb a c = false).
  { intros a Ha. apply Ascii.eqb_neq. intros E. by subst. }
  assert (Hn : forall a, (code a =? 45) || ((48 <=? code a) && (code a <=? 57))
                         = false -> ~ int_start a).
  { intros a Ha [H|[H1 H2]].
    - rewrite H in Ha. discriminate.
    - apply orb_false_elim in Ha as [_ Ha].
      apply andb_false_iff in Ha as [Ha|Ha];
        [apply Z.leb_gt in Ha | apply Z.leb_gt in Ha]; lia. }
  cbn [L list_ascii_of_string strip_prefix].
  rewrite (Hne "n"%char), (Hne "t"%char), (Hne "f"%char);
    try reflexivity; apply Hn; reflexivity.
Qed.

Lemma is_ws_int_start c : int_start c -> is_ws c = false.
Proof.
  unfold is_ws, int_start. cbv zeta. intros H.
  repeat (apply orb_false_intro); apply Z.eqb_neq; lia.
Qed.

Lemma dumps_str_head s rest :
  exists body, dumps_str s ++ rest = DQUOTE :: body.
Proof. unfold dumps_str. cbn [app]. eauto. Qed.

Lemma dumps_val_head v rest :
  exists c s', dumps_val v ++ rest = c :: s' /\ is_ws c = false.
Proof.
  destruct v as [|[|]|z|s]; cbn [dumps_val].
  - eexists _, _. split; reflexivity.
  - eexists _, _. split; reflexivity.
  - eexists _, _. split; reflexivity.
  - destruct (str_of_Z_head z rest) as (c & s' & E & Hc).
    exists c, s'. split; [done|]. by apply is_ws_int_start.
  - eexists _, _. split; reflexivity.
Qed.

Lemma skip_ws_dumps_val v rest :
  skip_ws (dumps_val v ++ rest) = dumps_val v ++ rest.
Proof.
  destruct (dumps_val_head v rest) as (c & s' & E & Hc).
  rewrite E. cbn [skip_ws]. by rewrite Hc.
Qed.

Lemma skip_ws_dumps_str s rest :
  skip_ws (dumps_str s ++ rest) = dumps_str s ++ rest.
Proof. reflexivity. Qed.

Lemma skip_ws_delimiter rest : delimiter_ahead rest -> skip_ws rest = rest.
Proof.
  destruct rest as [|c r]; [done|]. cbn [delimiter_ahead skip_ws].
  unfold is_ws. cbv zeta. intros [H|H]; rewrite H; reflexivity.
Qed.

Lemma scan_value_dumps v rest :
  delimiter_ahead rest ->
  scan_value (dumps_val v ++ rest) = Some (v, rest).
Proof.
  intros Hd. destruct v as [|[|]|z|s]; cbn [dumps_val].
  - reflexivity.
  - reflexivity.
  - reflexivity.
  - destruct (str_of_Z_head z rest) as (c & s' & E & Hc).
    rewrite E, scan_value_int by done. rewrite <- E.
    by rewrite scan_int_str_of_Z.
  - destruct (scan_string_dumps s rest) as (body & E & Hs).
    rewrite E. unfold scan_value.
    change (code DQUOTE =? 34) with true. cbv iota.
    rewrite Hs. unfold L. by rewrite string_of_list_ascii_of_string.
Qed.

Lemma scan_members_step fuel s acc k v tail :
  skip_ws s = dumps_item (k, v) ++ tail ->
  delimiter_ahead tail ->
  scan_members (S fuel) s acc =
    match tail with
    | c :: s5 =>
        if code c =? 44 then scan_members fuel s5 (<[k := v]> acc)
        else if code c =? 125 then Some (<[k := v]> acc, s5)
        else None
    | [] => None
    end.
Proof.
  intros Hs Hd. cbn [scan_members]. rewrite Hs.
  unfold dumps_item. cbn [fst snd]. rewrite <- !app_assoc.
  destruct (scan_string_dumps k (L ": " ++ dumps_val v ++ tail))
    as (body & E & Hb).
  rewrite E. change (negb (code DQUOTE =? 34)) with false. cbv iota.
  rewrite Hb. cbn [L list_ascii_of_string app skip_ws].
  change (is_ws ":") with false. cbv iota.
  change (negb (code ":" =? 58)) with false. cbv iota.
  cbn [skip_ws]. change (is_ws " ") with true. cbv iota.
  fold L. rewrite skip_ws_dumps_val, scan_value_dumps by done.
  rewrite skip_ws_delimiter by done.
  unfold L. rewrite string_of_list_ascii_of_string.
  reflexivity.
Qed.

Lemma scan_members_items l : forall fuel s acc rest,
  l <> [] -> (length l <= fuel)%nat ->
  skip_ws s = dumps_items l ++ "}"%char :: rest ->
  scan_members fuel s acc = Some (foldl ins acc l, rest).
Proof.
  induction l as [|[k v] l IH]; intros fuel s acc rest Hne Hlen Hs; [done|].
  destruct fuel as [|fuel]; [cbn in Hlen; lia|].
  destruct l as [|kv2 l].
  - cbn [dumps_items] in Hs.
    rewrite (scan_members_step _ _ _ k v ("}"%char :: rest)); [|done|by right].
    reflexivity.
  - change (dumps_items ((k, v) :: kv2 :: l))
      with (dumps_item (k, v) ++ L ", " ++ dumps_items (kv2 :: l)) in Hs.
    rewrite <- !app_assoc in Hs.
    rewrite (scan_members_step _ _ _ k v _ Hs); [|by left].
    cbn [L list_ascii_of_string app].
    change (code "," =? 44) with true. cbv iota.
    rewrite (IH fuel _ _ rest); [reflexivity|done|cbn in *; lia|].
    cbn [skip_ws]. change (is_ws " ") with true. cbv iota.
    destruct kv2 as [k2 v2]. destruct l; cbn [dumps_items];
      unfold dumps_item; cbn [fst]; rewrite <- ?app_assoc; reflexivity.
Qed.

Lemma foldl_ins_list_to_map (l : list (string * pyval)) :
  NoDup l.*1 -> foldl ins ∅ l = list_to_map l.
Proof.
  intros Hnd.
  assert (H : foldl ins ∅ l = list_to_map (rev l)).
  { clear Hnd. induction l as [|x l IH] using rev_ind; [reflexivity|].
    rewrite foldl_app, rev_app_distr. cbn [foldl rev app list_to_map foldr].
    rewrite IH. reflexivity. }
  assert (Hp : rev l ≡ₚ l) by (symmetry; apply Permutation_rev).
  rewrite H. apply list_to_map_proper; [by rewrite Hp | done].
Qed.

Lemma dumps_item_nonempty kv : (1 <= length (dumps_item kv))%nat.
Proof.
  unfold dumps_item, dumps_str. cbn [app length]. lia.
Qed.

Lemma length_dumps_items l : (length l <= length (dumps_items l))%nat.
Proof.
  induction l as [|kv l IH]; [done|].
  destruct l as [|kv2 l].
  - cbn [dumps_items length]. pose proof (dumps_item_nonempty kv). lia.
  - change (dumps_items (kv :: kv2 :: l))
      with (dumps_item kv ++ L ", " ++ dumps_items (kv2 :: l)).
    rewrite !length_app. pose proof (dumps_item_nonempty kv).
    cbn [length] in *. lia.
Qed.

Lemma dumps_items_head kv l rest :
  exists body, dumps_items (kv :: l) ++ rest = DQUOTE :: body.
Proof.
  destruct l; cbn [dumps_items]; unfold dumps_item;
    rewrite <- ?app_assoc; apply dumps_str_head.
Qed.

(** JSON round trip on flat mappings. *)
Lemma loads_dumps (d : gmap string pyval) : loads (dumps d) = Return (Dict d).
Proof.
  unfold loads, dumps. cbn [skip_ws]. change (is_ws "{") with false.
  cbv iota. unfold scan_document. change (code "{" =? 123) with true.
  cbv iota. unfold scan_object.
  destruct (map_to_list d) as [|kv l] eqn:El.
  - apply map_to_list_empty_iff in El. subst d. reflexivity.
  - destruct (dumps_items_head kv l ["}"%char]) as (body & E).
    rewrite E. cbn [skip_ws]. change (is_ws DQUOTE) with false. cbv iota.
    change (code DQUOTE =? 125) with false. cbv iota.
    rewrite <- E.
    rewrite (scan_members_items (kv :: l) _ _ ∅ []); [| done | | ].
    + cbn [skip_ws]. rewrite <- El, foldl_ins_list_to_map.
      * by rewrite list_to_map_to_list.
      * apply NoDup_fst_map_to_list.
    + rewrite length_app. pose proof (length_dumps_items (kv :: l)). lia.
    + rewrite E. cbn [skip_ws]. change (is_ws DQUOTE) with false. reflexivity.
Qed.

(** *** The text written is ASCII *)

Lemma encode_utf8_ascii s : ascii_only s -> encode_utf8 s = s.
Proof.
  unfold encode_utf8. induction 1 as [|c s Hc Hs IH]; [reflexivity|].
  cbn [flat_map]. rewrite Hc, IH. reflexivity.
Qed.

Lemma hex_digit_ascii n : 0 <= n < 16 -> (code (hex_digit n) <? 128) = true.
Proof.
  intros Hn.
  apply (below_forallb 16 (fun n => code (hex_digit n) <? 128));
    [vm_compute; reflexivity | lia].
Qed.

Lemma escape_char_ascii c : ascii_only (escape_char c).
Proof.
  unfold escape_char, ascii_only. cbv zeta.
  pose proof (code_range c) as Hc.
  repeat match goal with
  | |- Forall _ (if ?b then _ else _) => destruct b eqn:?
  end; repeat constructor.
  - apply andb_prop in Heqb6 as [_ H]. apply Z.leb_le in H.
    apply Z.ltb_lt. lia.
  - apply hex_digit_ascii. Z.div_mod_to_equations; lia.
  - apply hex_digit_ascii. Z.div_mod_to_equations; lia.
Qed.

Lemma dumps_str_ascii s : ascii_only (dumps_str s).
Proof.
  unfold dumps_str, ascii_only. constructor; [reflexivity|].
  apply Forall_app. split; [|by repeat constructor].
  induction (L s) as [|c cs IH]; [constructor|].
  cbn [flat_map]. apply Forall_app. split; [apply escape_char_ascii|done].
Qed.

Lemma uint_chars_ascii u : ascii_only (L (NilEmpty.string_of_uint u)).
Proof.
  unfold ascii_only.
  induction u; cbn [NilEmpty.string_of_uint L list_ascii_of_string];
    constructor; try reflexivity; done.
Qed.

Lemma str_of_Z_ascii z : ascii_only (L (str_of_Z z)).
Proof.
  unfold str_of_Z. destruct z as [|p|p]; cbn [Z.to_int NilZero.string_of_int].
  - by repeat constructor.
  - pose proof (to_uint_head p) as Hh.
    rewrite string_of_uint_nonnil by (intros E; by rewrite E in Hh).
    apply uint_chars_ascii.
  - pose proof (to_uint_head p) as Hh.
    rewrite string_of_uint_nonnil by (intros E; by rewrite E in Hh).
    constructor; [reflexivity | apply uint_chars_ascii].
Qed.

Lemma dumps_val_ascii v : ascii_only (dumps_val v).
Proof.
  destruct v as [|[|]|z|s]; cbn [dumps_val];
    try (by repeat constructor).
  - apply str_of_Z_ascii.
  - apply dumps_str_ascii.
Qed.

Lemma dumps_item_ascii kv : ascii_only (dumps_item kv).
Proof.
  unfold dumps_item. apply Forall_app. split; [apply dumps_str_ascii|].
  apply Forall_app. split; [by repeat constructor | apply dumps_val_ascii].
Qed.

Lemma dumps_ascii d : ascii_only (dumps d).
Proof.
  unfold dumps. constructor; [reflexivity|].
  apply Forall_app. split; [|by repeat constructor].
  induction (map_to_list d) as [|kv l IH]; [constructor|].
  destruct l as [|kv2 l]; [apply dumps_item_ascii|].
  change (dumps_items (kv :: kv2 :: l))
    with (dumps_item kv ++ L ", " ++ dumps_items (kv2 :: l)).
  apply Forall_app. split; [apply dumps_item_ascii|].
  apply Forall_app. split; [by repeat constructor | done].
Qed.

(** ** Facts about the schema *)

Lemma field_of_Some attr f : field_of attr = Some f -> (attr, f) ∈ fields.
Proof.
  unfold field_of. intros H.
  destruct (List.find _ fields) as [[a g]|] eqn:E; [|discriminate].
  cbn in H. injection H as ->.
  apply List.find_some in E as [Hin Heq]. cbn in Heq.
  apply String.eqb_eq in Heq. subst a. by apply list_elem_of_In.
Qed.

Lemma field_of_None attr : field_of attr = None -> attr ∉ fields.*1.
Proof.
  unfold field_of. intros H Hin.
  destruct (List.find _ fields) as [nf|] eqn:E; [discriminate|].
  apply list_elem_of_fmap in Hin as ([a f] & -> & Hin).
  apply list_elem_of_In in Hin.
  pose proof (List.find_none _ _ E _ Hin) as Hn. cbn in Hn.
  by rewrite String.eqb_refl in Hn.
Qed.

Lemma field_of_declared attr f : (attr, f) ∈ fields -> field_of attr = Some f.
Proof.
  intros Hin.
  assert (H : Forall (fun nf => field_of nf.1 = Some nf.2) fields)
    by (repeat constructor).
  rewrite Forall_forall in H. exact (H _ Hin).
Qed.

Lemma field_of_is_Some attr : attr ∈ fields.*1 -> is_Some (field_of attr).
Proof.
  intros Hin. destruct (field_of attr) eqn:E; [eauto|].
  by apply field_of_None in E.
Qed.

Lemma declared_not_extra attr : attr ∈ fields.*1 -> attr ∉ obj_extra_fields.
Proof.
  intros H1 H2.
  assert (H : Forall (fun a => a ∉ fields.*1) obj_extra_fields).
  { repeat constructor; by apply (bool_decide_unpack _). }
  rewrite Forall_forall in H. exact (H _ H2 H1).
Qed.

Lemma not_extra_eqb attr :
  attr ∉ obj_extra_fields ->
  String.eqb attr "name" = false
  /\ String.eqb attr "is_incremental" = false
  /\ String.eqb attr "has_dependent_backups" = false.
Proof.
  intros H. repeat split; apply String.eqb_neq; intros ->; apply H;
    unfold obj_extra_fields; set_solver.
Qed.

Lemma elem_of_obj_fields attr :
  attr ∈ obj_fields <-> attr ∈ fields.*1 \/ attr ∈ obj_extra_fields.
Proof. unfold obj_fields. apply elem_of_app. Qed.

Lemma elem_of_extra attr :
  attr ∈ obj_extra_fields <->
  attr = "name" \/ attr = "is_incremental" \/ attr = "has_dependent_backups".
Proof.
  unfold obj_extra_fields. rewrite !elem_of_cons, elem_of_nil. tauto.
Qed.

Lemma coerce_matching f row attr :
  matches_field f (default PNone (row !! attr)) = true ->
  coerce f (let value := default PNone (row !! attr) in
            if is_IntegerField f
            then match value with PNone => PInt 0 | _ => value end
            else value)
  = Return (loaded_value f row attr).
Proof.
  unfold matches_field, loaded_value, coerce, is_IntegerField. cbv zeta.
  destruct f as [[] nl]; cbn [ftype nullable];
    destruct (default PNone (row !! attr)) as [|b|z|s];
    try discriminate; try reflexivity; by intros ->.
Qed.

Lemma foldl_insert_lookup (g : string -> pyval) l :
  forall (m0 : gmap string pyval) k,
  foldl (fun m a => <[a := g a]> m) m0 l !! k =
    if decide (k ∈ l) then Some (g k) else m0 !! k.
Proof.
  induction l as [|a l IH]; intros m0 k.
  - cbn. by rewrite decide_False by (apply not_elem_of_nil).
  - cbn [foldl]. rewrite IH.
    destruct (decide (k ∈ l)) as [Hin|Hnin].
    + by rewrite decide_True by (by right).
    + destruct (decide (k = a)) as [->|Hne].
      * rewrite decide_True by (by left). by rewrite lookup_insert_eq.
      * rewrite decide_False by (intros H; apply elem_of_cons in H; tauto).
        by rewrite lookup_insert_ne.
Qed.

Lemma id_in_obj_fields : "id" ∈ obj_fields.
Proof. by apply (bool_decide_unpack _). Qed.

(** ** Reading the object: properties, [getattr], the export codec *)

Set Default Proof Using "Type".

(** Drops from the goal's context whatever the statement does not use. *)
Ltac unused_away := repeat match goal with H : _ |- _ => clear H end.

Section BackupTheory.

Variable context : Type.
Variable backup_name_template : string.
Variable str_mod : string -> pyval -> result string.
Variable PY3 : bool.
Variable jsonutils_dumps : gmap string pyval -> list ascii.
Variable jsonutils_loads : list ascii -> result pyobj.
Variable db : Type.
Variable db_backup_get :
  context -> pyval -> db -> result (gmap string pyval) * db.
Variable db_backup_create :
  context -> gmap string pyval -> db -> result (gmap string pyval) * db.
Variable db_backup_update :
  context -> pyval -> gmap string pyval -> db -> result unit * db.

(** What the JSON functions owe each other: a mapping of primitives that
    is written, and encoded when the interpreter is Python 3, is read back
    as it was. *)
Hypothesis jsonutils_roundtrip : forall d : gmap string pyval,
  jsonutils_loads
    (if PY3 then encode_utf8 (jsonutils_dumps d) else jsonutils_dumps d)
  = Return (Dict d).

Local Abbreviation Backup := (Backup context).
Local Abbreviation world := (world context db).
Local Abbreviation M := (M context db).
Local Abbreviation obj_get_field := (obj_get_field context db).
Local Abbreviation name := (name context backup_name_template str_mod db).
Local Abbreviation is_incremental := (is_incremental context db).
Local Abbreviation has_dependent_backups := (has_dependent_backups context db).
Local Abbreviation obj_getattr :=
  (obj_getattr context backup_name_template str_mod db).
Local Abbreviation obj_setattr := (obj_setattr context db).
Local Abbreviation obj_attr_is_set := (obj_attr_is_set context db).
Local Abbreviation obj_reset_changes := (obj_reset_changes context db).
Local Abbreviation cinder_obj_get_changes := (cinder_obj_get_changes context db).
Local Abbreviation obj_keys := (obj_keys context db).
Local Abbreviation dict_update :=
  (dict_update context backup_name_template str_mod db).
Local Abbreviation encode_record :=
  (encode_record context backup_name_template str_mod PY3 jsonutils_dumps db).
Local Abbreviation decode_record := (decode_record jsonutils_loads).
Local Abbreviation obj_make_compatible := (obj_make_compatible context db).
Local Abbreviation base_obj_make_compatible :=
  (base_obj_make_compatible context db).
Local Abbreviation load_fields := (load_fields context db).
Local Abbreviation _from_db_object := (_from_db_object context db).
Local Abbreviation get_by_id := (get_by_id context db db_backup_get).
Local Abbreviation create := (create context db db_backup_create).
Local Abbreviation save :=
  (save context backup_name_template str_mod db db_backup_update).
Local Abbreviation assign_all := (assign_all context db).

Lemma obj_get_field_run attr (w : world) :
  obj_get_field attr w =
    (match obj_values (self w) !! attr with
     | Some v => Return v
     | None => Raise NotImplementedError
     end, w).
Proof.
  unfold obj_get_field, mbind, get_self.
  destruct (obj_values (self w) !! attr); reflexivity.
Qed.

Lemma name_run (w : world) :
  name w =
    (match obj_values (self w) !! "id" with
     | Some id => match str_mod backup_name_template id with
                  | Return s => Return (PStr s)
                  | Raise e => Raise e
                  end
     | None => Raise NotImplementedError
     end, w).
Proof.
  unfold name, mbind. rewrite obj_get_field_run.
  destruct (obj_values (self w) !! "id") as [id|]; [|reflexivity].
  unfold lift. destruct (str_mod backup_name_template id); reflexivity.
Qed.

Lemma is_incremental_run (w : world) :
  is_incremental w =
    (match obj_values (self w) !! "parent_id" with
     | Some v => Return (PBool (py_bool v))
     | None => Raise NotImplementedError
     end, w).
Proof.
  unfold is_incremental, mbind. rewrite obj_get_field_run.
  destruct (obj_values (self w) !! "parent_id"); reflexivity.
Qed.

Lemma has_dependent_backups_run (w : world) :
  has_dependent_backups w =
    (match obj_values (self w) !! "num_dependent_backups" with
     | Some v => Return (PBool (py_bool v))
     | None => Raise NotImplementedError
     end, w).
Proof.
  unfold has_dependent_backups, mbind. rewrite obj_get_field_run.
  destruct (obj_values (self w) !! "num_dependent_backups"); reflexivity.
Qed.

(** Reading an attribute leaves the world as it is. *)
Lemma obj_getattr_frame attr (w : world) : (obj_getattr attr w).2 = w.
Proof.
  unfold obj_getattr.
  destruct (String.eqb attr "name"); [by rewrite name_run|].
  destruct (String.eqb attr "is_incremental");
    [by rewrite is_incremental_run|].
  destruct (String.eqb attr "has_dependent_backups");
    [by rewrite has_dependent_backups_run|].
  destruct (field_of attr); [by rewrite obj_get_field_run | reflexivity].
Qed.

Lemma dict_update_frame ks kwargs (w : world) :
  (dict_update ks kwargs w).2 = w.
Proof.
  revert kwargs. induction ks as [|k ks IH]; intros kwargs; [reflexivity|].
  cbn [dict_update]. unfold mbind.
  pose proof (obj_getattr_frame k w) as Hf.
  destruct (obj_getattr k w) as [[v|e] w']; cbn in Hf; subst w';
    [apply IH | reflexivity].
Qed.

Lemma encode_record_run kwargs (w : world) :
  encode_record kwargs w =
    match dict_update (keys_of (self w)) kwargs w with
    | (Return m, w') =>
        (Return (Base64.encodestring
                   (if PY3 then encode_utf8 (jsonutils_dumps m)
                    else jsonutils_dumps m)), w')
    | (Raise e, w') => (Raise e, w')
    end.
Proof.
  unfold encode_record, obj_keys, get_self, ret, mbind.
  cbv beta iota.
  destruct (dict_update _ kwargs w) as [[m|e] w']; reflexivity.
Qed.

Lemma encode_record_frame kwargs (w : world) :
  (encode_record kwargs w).2 = w.
Proof.
  rewrite encode_record_run.
  pose proof (dict_update_frame (keys_of (self w)) kwargs w) as Hf.
  destruct (dict_update _ kwargs w) as [[m|e] w']; cbn in Hf; by subst w'.
Qed.

(** [kwargs.update(self)] when every key can be read. *)
Lemma dict_update_ok (view : gmap string pyval) ks : forall kwargs (w : world),
  (forall k, k ∈ ks ->
     exists v, view !! k = Some v /\ obj_getattr k w = (Return v, w)) ->
  exists m, dict_update ks kwargs w = (Return m, w)
    /\ forall k, m !! k = if decide (k ∈ ks) then view !! k else kwargs !! k.
Proof.
  induction ks as [|k ks IH]; intros kwargs w Hks.
  - exists kwargs. split; [reflexivity|]. intros j.
    destruct (decide (j ∈ [])) as [H|H]; [by apply elem_of_nil in H|done].
  - destruct (Hks k) as (v & Hv & Hrun); [by left|].
    destruct (IH (<[k := v]> kwargs) w) as (m & Hm & Hlook).
    { intros j Hj. apply Hks. by right. }
    exists m. split.
    + cbn [dict_update]. unfold mbind. by rewrite Hrun.
    + intros j. rewrite Hlook.
      destruct (decide (j ∈ ks)) as [Hin|Hnin].
      * rewrite decide_True by (by right). reflexivity.
      * destruct (decide (j = k)) as [->|Hne].
        -- rewrite decide_True by (by left). by rewrite lookup_insert_eq.
        -- rewrite decide_False by (intros H; apply elem_of_cons in H; tauto).
           by rewrite lookup_insert_ne.
Qed.

Lemma elem_of_keys_of (o : Backup) attr :
  attr ∈ keys_of o <->
  attr ∈ obj_extra_fields
  \/ (attr ∈ fields.*1 /\ is_Some (obj_values o !! attr)).
Proof.
  unused_away.
  unfold keys_of. rewrite list_elem_of_In, filter_In, <- list_elem_of_In.
  rewrite elem_of_obj_fields, orb_true_iff, !bool_decide_eq_true.
  tauto.
Qed.

Lemma snapshot_lookup (o : Backup) attr :
  snapshot o !! attr =
    if decide (attr ∈ fields.*1) then obj_values o !! attr else None.
Proof.
  unfold snapshot. destruct (decide (attr ∈ fields.*1)) as [Hin|Hnin].
  - destruct (obj_values o !! attr) as [v|] eqn:E.
    + by apply map_lookup_filter_Some.
    + apply map_lookup_filter_None. left. done.
  - apply map_lookup_filter_None. right. intros v _. done.
Qed.

Lemma dict_view_lookup nm (o : Backup) attr :
  dict_view nm o !! attr =
    if decide (attr = "name") then Some (PStr nm)
    else if decide (attr = "is_incremental") then
      Some (PBool (py_bool (default PNone (obj_values o !! "parent_id"))))
    else if decide (attr = "has_dependent_backups") then
      Some (PBool (py_bool
              (default PNone (obj_values o !! "num_dependent_backups"))))
    else if decide (attr ∈ fields.*1) then obj_values o !! attr
    else None.
Proof.
  unfold dict_view. rewrite !lookup_insert, snapshot_lookup.
  repeat (case_decide; try congruence).
Qed.

(** Every key the object yields can be read, and reads as [dict_view]
    says, once the fields behind the three properties are set. *)
Lemma keys_readable (w : world) id pid nd nm :
  obj_values (self w) !! "id" = Some id ->
  obj_values (self w) !! "parent_id" = Some pid ->
  obj_values (self w) !! "num_dependent_backups" = Some nd ->
  str_mod backup_name_template id = Return nm ->
  forall k, k ∈ keys_of (self w) ->
    exists v, dict_view nm (self w) !! k = Some v
              /\ obj_getattr k w = (Return v, w).
Proof.
  intros Hid Hpid Hnd Hnm k Hk.
  rewrite dict_view_lookup. unfold obj_getattr.
  apply elem_of_keys_of in Hk as [Hx|[Hd [v Hv]]].
  - apply elem_of_extra in Hx as [-> | [-> | ->]]; cbn [String.eqb Ascii.eqb].
    + eexists. split; [reflexivity|].
      vm_compute String.eqb. rewrite name_run, Hid, Hnm. reflexivity.
    + eexists. split; [reflexivity|].
      vm_compute String.eqb. rewrite is_incremental_run, Hpid. reflexivity.
    + eexists. split; [reflexivity|].
      vm_compute String.eqb.
      rewrite has_dependent_backups_run, Hnd. reflexivity.
  - pose proof (declared_not_extra _ Hd) as Hne.
    destruct (not_extra_eqb _ Hne) as (E1 & E2 & E3).
    rewrite E1, E2, E3.
    apply String.eqb_neq in E1, E2, E3.
    rewrite !decide_False by done. rewrite decide_True by done.
    destruct (field_of_is_Some _ Hd) as [f Hf]. rewrite Hf.
    exists v. split; [done|]. by rewrite obj_get_field_run, Hv.
Qed.

Lemma dict_view_outside nm (o : Backup) k :
  k ∉ keys_of o -> dict_view nm o !! k = None.
Proof.
  intros Hk. rewrite dict_view_lookup.
  assert (Hx : k ∉ obj_extra_fields).
  { intros H. apply Hk, elem_of_keys_of. by left. }
  rewrite elem_of_extra in Hx.
  rewrite !decide_False by (clear -Hx; tauto).
  case_decide as Hd; [|done].
  destruct (obj_values o !! k) eqn:E; [|done].
  exfalso. apply Hk, elem_of_keys_of. right. split; [done|]. by rewrite E.
Qed.

(** What the export codec does end to end: the token decodes to the
    object's mapping, over the extra entries given by the caller. *)
Lemma encode_then_decode kwargs (w : world) id pid nd nm :
  obj_values (self w) !! "id" = Some id ->
  obj_values (self w) !! "parent_id" = Some pid ->
  obj_values (self w) !! "num_dependent_backups" = Some nd ->
  str_mod backup_name_template id = Return nm ->
  exists token,
    encode_record kwargs w = (Return token, w)
    /\ decode_record token = Return (Dict (dict_view nm (self w) ∪ kwargs)).
Proof using Type jsonutils_roundtrip.
  intros Hid Hpid Hnd Hnm.
  destruct (dict_update_ok (dict_view nm (self w)) (keys_of (self w)) kwargs w)
    as (m & Hm & Hlook).
  { by apply (keys_readable w id pid nd nm). }
  assert (Em : m = dict_view nm (self w) ∪ kwargs).
  { apply map_eq. intros k. rewrite Hlook, lookup_union.
    destruct (decide (k ∈ keys_of (self w))) as [Hk|Hk].
    - destruct (keys_readable w id pid nd nm Hid Hpid Hnd Hnm k Hk)
        as (v & Hv & _).
      rewrite Hv. by destruct (kwargs !! k).
    - rewrite (dict_view_outside _ _ _ Hk). by destruct (kwargs !! k). }
  eexists. split.
  - rewrite encode_record_run, Hm. reflexivity.
  - unfold decode_record. rewrite decodestring_encodestring.
    cbn [bind]. rewrite jsonutils_roundtrip. by rewrite Em.
Qed.



(** C4 (as amended). A token that the base64 decoder rejects - bits are
    left over once the characters outside the alphabet are skipped -
    makes [decode_record] raise InvalidInput with the decode message; bytes
    that the JSON reader rejects make it raise InvalidInput with the parse
    message; neither a binascii error nor a ValueError gets out; the two
    messages differ; and the token not-base64!! is rejected with the
    decode message. *)
Theorem C4_decode_errors_normalised (backup_url : list ascii) :
  match Base64.decodestring backup_url with
  | Raise _ =>
      decode_record backup_url
      = Raise (InvalidInput "Can't decode backup record.")
  | Return raw =>
      match jsonutils_loads raw with
      | Raise ValueError =>
          decode_record backup_url
          = Raise (InvalidInput "Can't parse backup record.")
      | Raise BinasciiError =>
          decode_record backup_url
          = Raise (InvalidInput "Can't decode backup record.")
      | r => decode_record backup_url = r
      end
  end
  /\ decode_record backup_url <> Raise BinasciiError
  /\ decode_record backup_url <> Raise ValueError
  /\ InvalidInput "Can't decode backup record."
     <> InvalidInput "Can't parse backup record."
  /\ decode_record (list_ascii_of_string "not-base64!!")
     = Raise (InvalidInput "Can't decode backup record.").
Proof.
  unfold decode_record.
  assert (Hdec : forall s, match Base64.decodestring s with
                           | Raise e => e = BinasciiError
                           | Return _ => True
                           end).
  { intros s. unfold Base64.decodestring, Base64.a2b_base64.
    destruct (Base64.a2b_loop s 0 0 0) as [lb out].
    by destruct (lb =? 0). }
  pose proof (Hdec backup_url) as H.
  repeat split.
  - destruct (Base64.decodestring backup_url) as [raw|e]; cbn [bind].
    + by destruct (jsonutils_loads raw) as [v|[]].
    + by subst e.
  - destruct (Base64.decodestring backup_url) as [raw|e]; cbn [bind].
    + by destruct (jsonutils_loads raw) as [v|[]].
    + by subst e.
  - destruct (Base64.decodestring backup_url) as [raw|e]; cbn [bind].
    + by destruct (jsonutils_loads raw) as [v|[]].
    + by subst e.
  - discriminate.
Qed.

(** C8 (as amended). When [parent_id] is set, [is_incremental] is its
    truth value: false for None and for the empty string, true for any
    other string. When [num_dependent_backups] is set to an integer,
    [has_dependent_backups] tells whether it differs from zero, which for
    a count that is not negative is to be greater than zero. Unset fields
    make the properties raise. *)
Theorem C8_derived_properties (w : world) :
  (forall v, obj_values (self w) !! "parent_id" = Some v ->
     is_incremental w = (Return (PBool (py_bool v)), w))
  /\ py_bool PNone = false
  /\ (forall s, py_bool (PStr s) = negb (String.eqb s ""))
  /\ (forall n, obj_values (self w) !! "num_dependent_backups" = Some (PInt n) ->
        has_dependent_backups w = (Return (PBool (negb (n =? 0))), w)
        /\ (0 <= n -> negb (n =? 0) = (0 <? n)))
  /\ (obj_values (self w) !! "parent_id" = Some (PStr "") ->
      obj_values (self w) !! "num_dependent_backups" = Some (PInt 0) ->
      is_incremental w = (Return (PBool false), w)
      /\ has_dependent_backups w = (Return (PBool false), w))
  /\ (obj_values (self w) !! "parent_id" = None ->
      is_incremental w = (Raise NotImplementedError, w))
  /\ (obj_values (self w) !! "num_dependent_backups" = None ->
      has_dependent_backups w = (Raise NotImplementedError, w)).
Proof.
  rewrite is_incremental_run, has_dependent_backups_run.
  split. { intros v ->. reflexivity. }
  split. { reflexivity. }
  split. { reflexivity. }
  split.
  { intros n ->. split; [reflexivity|].
    intros Hn. destruct (Z.eqb_spec n 0) as [->|Hne]; cbn.
    - reflexivity.
    - symmetry. apply Z.ltb_lt. lia. }
  split. { by intros -> ->. }
  split; by intros ->.
Qed.

(** C10. Encoding leaves the record as it was: whatever the extra
    entries, and whether the call returns a token or raises, the world
    after the call - the object's field values, its change-set, its
    context, the database and the calls made to it - is the world before
    it. *)
Theorem C10_encode_leaves_record (kwargs : gmap string pyval) (w : world) :
  (encode_record kwargs w).2 = w
  /\ obj_values (self (encode_record kwargs w).2) = obj_values (self w)
  /\ changed_fields (self (encode_record kwargs w).2)
     = changed_fields (self w).
Proof.
  by rewrite encode_record_frame.
Qed.

(** ** Writing the object: assignment, loading, [create] and [save] *)

Lemma obj_setattr_declared attr f value v (w : world) :
  field_of attr = Some f -> coerce f value = Return v ->
  obj_setattr attr value w =
    (Return tt,
     mkWorld (mkBackup (<[attr := v]> (obj_values (self w)))
                       ({[attr]} ∪ changed_fields (self w))
                       (obj_context (self w)))
             (database w) (db_calls w)).
Proof.
  intros Hf Hc. unfold obj_setattr. rewrite Hf.
  unfold mbind, lift. rewrite Hc. reflexivity.
Qed.

Lemma obj_setattr_refused attr f value e (w : world) :
  field_of attr = Some f -> coerce f value = Raise e ->
  obj_setattr attr value w = (Raise e, w).
Proof.
  intros Hf Hc. unfold obj_setattr. rewrite Hf.
  unfold mbind, lift. rewrite Hc. reflexivity.
Qed.

Lemma obj_setattr_undeclared attr value (w : world) :
  field_of attr = None ->
  obj_setattr attr value w = (Raise AttributeError, w)
  \/ obj_setattr attr value w = (Return tt, w).
Proof.
  intros Hf. unfold obj_setattr. rewrite Hf.
  case_bool_decide; [by left | by right].
Qed.

(** An assignment that returns has recorded the name, if it is a declared
    one, and touched nothing but the object. *)
Lemma obj_setattr_returns attr value (w w' : world) :
  obj_setattr attr value w = (Return tt, w') ->
  changed_fields (self w') =
    (if bool_decide (attr ∈ fields.*1) then {[attr]} else ∅)
    ∪ changed_fields (self w)
  /\ database w' = database w /\ db_calls w' = db_calls w
  /\ obj_context (self w') = obj_context (self w)
  /\ (forall a, is_Some (obj_values (self w) !! a) ->
                is_Some (obj_values (self w') !! a))
  /\ (attr ∈ fields.*1 -> is_Some (obj_values (self w') !! attr)).
Proof.
  intros H. destruct (field_of attr) as [f|] eqn:Hf.
  - pose proof (field_of_Some _ _ Hf) as Hin.
    assert (Hd : attr ∈ fields.*1).
    { apply list_elem_of_fmap. by exists (attr, f). }
    destruct (coerce f value) as [v|e] eqn:Hc.
    + rewrite (obj_setattr_declared _ _ _ _ _ Hf Hc) in H.
      injection H as <-. cbn. rewrite bool_decide_eq_true_2 by done.
      repeat split; try done.
      * intros a Ha. destruct (decide (attr = a)) as [->|Hne].
        -- by rewrite lookup_insert_eq.
        -- by rewrite lookup_insert_ne.
      * intros _. by rewrite lookup_insert_eq.
    + rewrite (obj_setattr_refused _ _ _ _ _ Hf Hc) in H. discriminate.
  - pose proof (field_of_None _ Hf) as Hnd.
    destruct (obj_setattr_undeclared attr value w Hf) as [E|E];
      rewrite E in H; [discriminate|].
    injection H as <-. rewrite bool_decide_eq_false_2 by done.
    repeat split; try done. by rewrite (left_id_L ∅ (∪)).
Qed.

Lemma assign_all_returns l : forall (w w' : world),
  assign_all l w = (Return tt, w') ->
  changed_fields (self w') =
    list_to_set (declared_names l) ∪ changed_fields (self w)
  /\ database w' = database w /\ db_calls w' = db_calls w.
Proof.
  induction l as [|[a v] l IH]; intros w w' H.
  - injection H as <-. cbn. by rewrite (left_id_L ∅ (∪)).
  - cbn [assign_all] in H. unfold mbind in H.
    destruct (obj_setattr a v w) as [[[]|e] w1] eqn:E; [|discriminate].
    apply obj_setattr_returns in E as (Hc & Hd & Hl & _).
    apply IH in H as (Hc' & Hd' & Hl').
    rewrite Hc', Hc, Hd', Hd, Hl', Hl. repeat split; try done.
    unfold declared_names. cbn [fmap list_fmap List.filter fst].
    case_bool_decide; cbn [list_to_set foldr]; unused_away; set_solver.
Qed.

Lemma load_fields_frame fs row : forall (w : world),
  database (load_fields fs row w).2 = database w
  /\ db_calls (load_fields fs row w).2 = db_calls w.
Proof.
  induction fs as [|[a f] fs IH]; intros w; [done|].
  cbn [load_fields]. unfold mbind.
  destruct (obj_setattr a _ w) as [[[]|e] w1] eqn:E.
  - apply obj_setattr_returns in E as (_ & Hd & Hl & _).
    destruct (IH w1) as [H1 H2]. by rewrite H1, H2.
  - cbn. unfold obj_setattr in E.
    destruct (field_of a) as [g|].
    + unfold mbind, lift in E. destruct (coerce g _); [discriminate|].
      by injection E as _ <-.
    + case_bool_decide; [by injection E as _ <- | discriminate].
Qed.

(** A load that returns has set every field it went through. *)
Lemma load_fields_sets fs row : forall (w w' : world),
  (forall nf, nf ∈ fs -> nf ∈ fields) ->
  load_fields fs row w = (Return tt, w') ->
  (forall a, is_Some (obj_values (self w) !! a) ->
             is_Some (obj_values (self w') !! a))
  /\ (forall a, a ∈ fs.*1 -> is_Some (obj_values (self w') !! a)).
Proof.
  induction fs as [|[a f] fs IH]; intros w w' Hfs H.
  - injection H as <-. split; [done|]. intros a Ha. by apply elem_of_nil in Ha.
  - cbn [load_fields] in H. unfold mbind in H.
    destruct (obj_setattr a _ w) as [[[]|e] w1] eqn:E; [|discriminate].
    apply obj_setattr_returns in E as (_ & _ & _ & _ & Hkeep & Hnew).
    apply IH in H as [Hkeep' Hnew']; [|intros nf Hnf; apply Hfs; by right].
    split; [by auto|].
    intros b Hb. cbn in Hb. apply elem_of_cons in Hb as [->|Hb]; [|by auto].
    apply Hkeep', Hnew. apply list_elem_of_fmap. exists (a, f).
    split; [done|]. apply Hfs. by left.
Qed.

(** Loading a row that fits the schema. *)
Lemma load_fields_ok row fs : forall (w : world),
  (forall nf, nf ∈ fs -> nf ∈ fields) ->
  row_matches_schema row = true ->
  load_fields fs row w =
    (Return tt,
     mkWorld (mkBackup
                (foldl (fun m a => <[a := field_value row a]> m)
                       (obj_values (self w)) fs.*1)
                (list_to_set fs.*1 ∪ changed_fields (self w))
                (obj_context (self w)))
             (database w) (db_calls w)).
Proof.
  intros w Hfs Hrow. revert w.
  induction fs as [|[a f] fs IH]; intros w.
  - cbn. rewrite (left_id_L ∅ (∪)). by destruct w as [[]].
  - assert (Hin : (a, f) ∈ fields) by (apply Hfs; by left).
    assert (Hm : matches_field f (default PNone (row !! a)) = true).
    { unfold row_matches_schema in Hrow. rewrite forallb_forall in Hrow.
      apply (Hrow (a, f)). by apply list_elem_of_In. }
    assert (Hfv : loaded_value f row a = field_value row a).
    { unfold field_value. by rewrite (field_of_declared _ _ Hin). }
    cbn [load_fields]. unfold mbind.
    rewrite (obj_setattr_declared a f _ (field_value row a));
      [|by apply field_of_declared|rewrite <- Hfv; by apply coerce_matching].
    rewrite IH by (intros nf Hnf; apply Hfs; by right).
    cbn [self database db_calls obj_values changed_fields obj_context
         fmap list_fmap fst foldl list_to_set foldr].
    do 2 f_equal. f_equal. unused_away. set_solver.
Qed.

Lemma from_db_object_run ctx row (w : world) :
  _from_db_object ctx row w =
    match load_fields fields row w with
    | (Return _, w1) =>
        let o := mkBackup (obj_values (self w1)) ∅ ctx in
        (Return o, mkWorld o (database w1) (db_calls w1))
    | (Raise e, w1) => (Raise e, w1)
    end.
Proof.
  unfold _from_db_object, mbind.
  destruct (load_fields fields row w) as [[[]|e] w1]; reflexivity.
Qed.

(** A load that returns leaves an object with every declared field set,
    the given context and no change recorded. *)
Lemma from_db_object_returns ctx row (w w' : world) o' :
  _from_db_object ctx row w = (Return o', w') ->
  self w' = o' /\ changed_fields o' = ∅ /\ obj_context o' = ctx
  /\ database w' = database w /\ db_calls w' = db_calls w
  /\ (forall a, a ∈ fields.*1 -> is_Some (obj_values o' !! a)).
Proof.
  rewrite from_db_object_run.
  pose proof (load_fields_frame fields row w) as [Hd Hl].
  destruct (load_fields fields row w) as [[[]|e] w1] eqn:E; [|discriminate].
  cbn in Hd, Hl. intros H. injection H as <- <-. cbn.
  repeat split; try done.
  by apply (load_fields_sets fields row w w1).
Qed.

Lemma from_db_object_ok ctx row (w : world) :
  row_matches_schema row = true ->
  let o' := mkBackup
              (foldl (fun m a => <[a := field_value row a]> m)
                     (obj_values (self w)) fields.*1)
              ∅ ctx in
  _from_db_object ctx row w
  = (Return o', mkWorld o' (database w) (db_calls w)).
Proof.
  intros Hrow. cbv zeta. rewrite from_db_object_run.
  by rewrite (load_fields_ok row fields w).
Qed.

(** C7. Loading a record from a storage row - a row that fits the field
    schema - returns; every declared integer field that the row leaves
    null or does not mention reads 0 afterwards, and every other field
    holds the row's value as it is, None when the row has none for it. *)
Theorem C7_load_defaults_integers_to_zero ctx row (w : world) :
  row_matches_schema row = true ->
  exists o',
    _from_db_object ctx row w
    = (Return o', mkWorld o' (database w) (db_calls w))
    /\ forall attr f, field_of attr = Some f ->
         (is_IntegerField f = true ->
          row !! attr = None \/ row !! attr = Some PNone ->
          obj_get_field attr (mkWorld o' (database w) (db_calls w))
          = (Return (PInt 0), mkWorld o' (database w) (db_calls w)))
         /\ (is_IntegerField f = true ->
             forall z, row !! attr = Some (PInt z) ->
             obj_values o' !! attr = Some (PInt z))
         /\ (is_IntegerField f = false ->
             obj_values o' !! attr = Some (default PNone (row !! attr))).
Proof.
  intros Hrow. eexists. split; [by apply from_db_object_ok|].
  intros attr f Hf.
  assert (Hd : attr ∈ fields.*1).
  { apply list_elem_of_fmap. exists (attr, f). split; [done|].
    by apply field_of_Some. }
  assert (Hv : foldl (fun m a => <[a := field_value row a]> m)
                 (obj_values (self w)) fields.*1 !! attr
               = Some (loaded_value f row attr)).
  { rewrite foldl_insert_lookup, decide_True by done.
    unfold field_value. by rewrite Hf. }
  split; [|split].
  - intros Hi Hnull. rewrite obj_get_field_run. cbn [self obj_values].
    rewrite Hv. unfold loaded_value. rewrite Hi.
    by destruct Hnull as [-> | ->].
  - intros Hi z Hz. cbn [obj_values]. rewrite Hv.
    unfold loaded_value. by rewrite Hz.
  - intros Hi. cbn [obj_values]. rewrite Hv.
    unfold loaded_value. rewrite Hi.
    by destruct (default PNone (row !! attr)).
Qed.

Lemma obj_attr_is_set_id (w : world) :
  obj_attr_is_set "id" w
  = (Return (bool_decide (is_Some (obj_values (self w) !! "id"))), w).
Proof.
  unfold obj_attr_is_set.
  by rewrite (bool_decide_eq_true_2 _ id_in_obj_fields).
Qed.

Lemma create_run (w : world) :
  create w =
    if bool_decide (is_Some (obj_values (self w) !! "id")) then
      (Raise (ObjectActionError "create" "already created"), w)
    else
      let ctx := obj_context (self w) in
      let updates := changes_of (self w) in
      let calls := db_calls w ++ [BackupCreate ctx updates] in
      match db_backup_create ctx updates (database w) with
      | (Return row, d) =>
          match _from_db_object ctx row (mkWorld (self w) d calls) with
          | (Return _, w') => (Return tt, w')
          | (Raise e, w') => (Raise e, w')
          end
      | (Raise e, d) => (Raise e, mkWorld (self w) d calls)
      end.
Proof.
  unfold create, mbind. rewrite obj_attr_is_set_id.
  case_bool_decide; [reflexivity|].
  unfold cinder_obj_get_changes, get_context, get_self, ret,
    call_backup_create, mbind. cbv beta iota zeta.
  destruct (db_backup_create _ _ (database w)) as [[row|e] d];
    [|reflexivity].
  cbn [self obj_context].
  destruct (_from_db_object _ row _) as [[o'|e] w']; reflexivity.
Qed.


Lemma obj_getattr_id (w : world) : obj_getattr "id" w = obj_get_field "id" w.
Proof. reflexivity. Qed.

Lemma save_run (w : world) :
  save w =
    let o := self w in
    let updates := changes_of o in
    let o' := mkBackup (obj_values o) ∅ (obj_context o) in
    if bool_decide (updates ≠ ∅) then
      match obj_values o !! "id" with
      | Some id =>
          let calls :=
            db_calls w ++ [BackupUpdate (obj_context o) id updates] in
          match db_backup_update (obj_context o) id updates (database w) with
          | (Return _, d) => (Return tt, mkWorld o' d calls)
          | (Raise e, d) => (Raise e, mkWorld o d calls)
          end
      | None => (Raise NotImplementedError, w)
      end
    else (Return tt, mkWorld o' (database w) (db_calls w)).
Proof.
  unfold save, cinder_obj_get_changes, get_context,
    obj_reset_changes, get_self, put_self, ret, mbind.
  cbv beta iota zeta.
  case_bool_decide as Hu; [|reflexivity].
  rewrite obj_getattr_id, obj_get_field_run.
  destruct (obj_values (self w) !! "id") as [id|]; [|reflexivity].
  unfold call_backup_update.
  destruct (db_backup_update _ id _ (database w)) as [[[]|e] d]; reflexivity.
Qed.


Lemma get_by_id_run ctx id d calls :
  get_by_id ctx id d calls =
    let calls' := calls ++ [BackupGet ctx id] in
    match db_backup_get ctx id d with
    | (Return row, d') =>
        _from_db_object ctx row (mkWorld (new_Backup ctx) d' calls')
    | (Raise e, d') => (Raise e, mkWorld (new_Backup ctx) d' calls')
    end.
Proof.
  unfold get_by_id, call_backup_get, mbind. cbn [database self db_calls].
  destruct (db_backup_get ctx id d) as [[row|e] d']; reflexivity.
Qed.


Lemma base_obj_make_compatible_run fs primitive target_version (w : world) :
  base_obj_make_compatible fs primitive target_version w
  = (Return primitive, w).
Proof.
  induction fs as [|[key [[] nl]] fs IH]; [reflexivity|exact IH..].
Qed.

(** C1 (what the code does). [obj_make_compatible] hands the primitive
    back as it received it, for every target version that can be read as
    numbers: brought down to version 1.0, a primitive that holds
    [num_dependent_backups] still holds it. *)
Theorem C1_downgrade_keeps_num_dependent_backups
    (primitive : gmap string pyval) v (w : world) :
  obj_make_compatible (<["num_dependent_backups" := v]> primitive) "1.0" w
  = (Return (<["num_dependent_backups" := v]> primitive), w)
  /\ (<["num_dependent_backups" := v]> primitive) !! "num_dependent_backups"
     = Some v
  /\ forall target_version,
       obj_make_compatible primitive target_version w
       = (match convert_version_to_tuple target_version with
          | Return _ => Return primitive
          | Raise e => Raise e
          end, w).
Proof.
  assert (H : forall p t,
    obj_make_compatible p t w
    = (match convert_version_to_tuple t with
       | Return _ => Return p
       | Raise e => Raise e
       end, w)).
  { intros p t. unfold obj_make_compatible, mbind.
    rewrite base_obj_make_compatible_run. unfold lift.
    by destruct (convert_version_to_tuple t). }
  split; [|split].
  - by rewrite H.
  - by rewrite lookup_insert_eq.
  - intros t. apply H.
Qed.

End BackupTheory.

(** ** The concrete setting: evaluations, counterexamples and witnesses *)

(** The modelled JSON functions keep the promise asked of [jsonutils],
    under either interpreter. *)
Lemma sample_json_roundtrip (py3 : bool) (d : gmap string pyval) :
  Json.loads (if py3 then encode_utf8 (Json.dumps d) else Json.dumps d)
  = Return (Dict d).
Proof.
  destruct py3; [rewrite encode_utf8_ascii by apply dumps_ascii|];
    apply loads_dumps.
Qed.





(** C4, as stated, fails: a token with a character outside the alphabet
    is not valid padded base64, and yet it is decoded - the character is
    skipped - to the empty mapping. *)
Lemma C4_counterexample :
  valid_padded_base64 (list_ascii_of_string "!e30=") = false
  /\ valid_padded_base64 (list_ascii_of_string "e30=") = true
  /\ decode_record Json.loads (list_ascii_of_string "!e30=")
     = Return (Dict ∅).
Proof. repeat split; vm_compute; reflexivity. Qed.



(** C7 at a row that leaves [size] null and does not mention
    [object_count]. *)
Lemma C7_witness :
  exists o',
    _from_db_object Sample.context Sample.db tt Sample.row1
      (Sample.world_of (new_Backup tt))
    = (Return o', mkWorld o' ∅ [])
    /\ obj_get_field Sample.context Sample.db "size" (mkWorld o' ∅ [])
       = (Return (PInt 0), mkWorld o' ∅ [])
    /\ obj_get_field Sample.context Sample.db "object_count" (mkWorld o' ∅ [])
       = (Return (PInt 0), mkWorld o' ∅ [])
    /\ obj_values o' !! "status" = Some (PStr "available")
    /\ obj_values o' !! "host" = Some PNone.
Proof.
  destruct (C7_load_defaults_integers_to_zero Sample.context Sample.db tt
              Sample.row1 (Sample.world_of (new_Backup tt)) eq_refl)
    as (o' & Hload & Hf).
  exists o'. split; [exact Hload|].
  destruct (Hf "size" (mkField IntegerField false) eq_refl) as (Hsize & _).
  destruct (Hf "object_count" (mkField IntegerField false) eq_refl)
    as (Hcount & _).
  destruct (Hf "status" (mkField StringField true) eq_refl) as (_ & _ & Hst).
  destruct (Hf "host" (mkField StringField true) eq_refl) as (_ & _ & Hhost).
  split; [apply Hsize; [reflexivity | by right]|].
  split; [apply Hcount; [reflexivity | by left]|].
  split; [apply Hst; reflexivity | apply Hhost; reflexivity].
Defined.

(** C8, as stated, fails: a count of -1 is not greater than zero, and
    [has_dependent_backups] is true. *)
Lemma C8_counterexample :
  obj_values Sample.a2 !! "num_dependent_backups" = Some (PInt (-1))
  /\ (0 <? -1) = false
  /\ has_dependent_backups Sample.context Sample.db
       (Sample.world_of Sample.a2)
     = (Return (PBool true), Sample.world_of Sample.a2).
Proof. repeat split; vm_compute; reflexivity. Qed.


(** ** Further properties of the record: failures, deletion, lists *)

(** [coerce] fails with ValueError only. *)
Lemma int_of_str_raises s e : int_of_str s = Raise e -> e = ValueError.
Proof.
  unfold int_of_str.
  destruct (match strip (list_ascii_of_string s) with
            | [] => (false, strip (list_ascii_of_string s))
            | c :: ds =>
                _
            end) as [neg ds] eqn:E.
  destruct ds as [|c ds]; [congruence|].
  destruct (digits_value 0 (c :: ds)); congruence.
Qed.

Lemma coerce_raises f value e : coerce f value = Raise e -> e = ValueError.
Proof.
  unfold coerce.
  destruct value as [|b|z|s]; destruct (nullable f), (ftype f);
    try congruence; cbn [bind].
  all: destruct (int_of_str s) as [z|e'] eqn:E; cbn [bind]; try congruence.
  all: intros [= <-]; by apply int_of_str_raises in E.
Qed.

Lemma changes_of_reset {context} (o : Backup context) :
  changed_fields o = ∅ -> changes_of o = ∅.
Proof.
  intros H. unfold changes_of. rewrite H.
  apply map_empty_filter_2. intros k v _ Hk. cbn in Hk. set_solver.
Qed.

Lemma loaded_record_lookup {context} (ctx : context) row attr :
  obj_values (loaded_record ctx row) !! attr
  = (fun f => loaded_value f row attr) <$> field_of attr.
Proof.
  unfold loaded_record. cbn [obj_values].
  rewrite foldl_insert_lookup. unfold field_value.
  destruct (decide (attr ∈ fields.*1)) as [Hin|Hout].
  - destruct (field_of_is_Some attr Hin) as [f ->]. reflexivity.
  - destruct (field_of attr) as [f|] eqn:E; [|by rewrite lookup_empty].
    exfalso. apply Hout. apply field_of_Some in E.
    apply list_elem_of_fmap. by exists (attr, f).
Qed.

(** Line breaks and blanks are skipped by the base64 decoder wherever
    they stand. *)
Lemma blank_code c :
  is_blank c = true -> code c = 10 \/ code c = 13 \/ code c = 32.
Proof. unfold is_blank. lia. Qed.

Lemma find_valid_blank c s2 : forall s1 num,
  is_blank c = true ->
  Base64.find_valid (s1 ++ c :: s2) num = Base64.find_valid (s1 ++ s2) num.
Proof.
  intros s1 num Hc. revert num.
  induction s1 as [|a s1 IH]; intros num; cbn [app Base64.find_valid].
  - by destruct (blank_code c Hc) as [-> | [-> | ->]].
  - destruct (_ && _); [|apply IH]. destruct num; [reflexivity|apply IH].
Qed.

Lemma a2b_loop_blank c s2 : forall s1 quad_pos leftbits leftchar,
  is_blank c = true ->
  Base64.a2b_loop (s1 ++ c :: s2) quad_pos leftbits leftchar
  = Base64.a2b_loop (s1 ++ s2) quad_pos leftbits leftchar.
Proof.
  intros s1 quad_pos leftbits leftchar Hc. revert quad_pos leftbits leftchar.
  induction s1 as [|a s1 IH]; intros quad_pos leftbits leftchar.
  - cbn [app Base64.a2b_loop].
    by destruct (blank_code c Hc) as [-> | [-> | ->]].
  - change ((a :: s1) ++ c :: s2) with (a :: (s1 ++ c :: s2)).
    change ((a :: s1) ++ s2) with (a :: (s1 ++ s2)).
    cbn [Base64.a2b_loop]. cbv zeta.
    destruct (_ || _); [apply IH|].
    destruct (code a =? code Base64.BASE64_PAD).
    + change (a :: (s1 ++ c :: s2)) with ((a :: s1) ++ c :: s2).
      change (a :: (s1 ++ s2)) with ((a :: s1) ++ s2).
      rewrite (find_valid_blank c s2 (a :: s1) 1 Hc).
      destruct (_ || _); [apply IH|reflexivity].
    + destruct (Base64.table_a2b_base64 (code a) =? -1); [apply IH|].
      destruct (8 <=? leftbits + 6); rewrite IH; reflexivity.
Qed.

Section BackupMoreTheory.

Variable context : Type.
Variable backup_name_template : string.
Variable str_mod : string -> pyval -> result string.
Variable PY3 : bool.
Variable jsonutils_dumps : gmap string pyval -> list ascii.
Variable jsonutils_loads : list ascii -> result pyobj.
Variable db : Type.
Variable db_backup_get :
  context -> pyval -> db -> result (gmap string pyval) * db.
Variable db_backup_create :
  context -> gmap string pyval -> db -> result (gmap string pyval) * db.
Variable db_backup_update :
  context -> pyval -> gmap string pyval -> db -> result unit * db.
Variable elevated : context -> context.
Variable context_None : context.
Variable db_filters : Type.
Variable db_backup_destroy : context -> pyval -> db -> result unit * db.
Variable db_backup_get_all :
  context -> option db_filters -> db -> result (list (gmap string pyval)) * db.
Variable db_backup_get_all_by_host :
  context -> pyval -> db -> result (list (gmap string pyval)) * db.
Variable db_backup_get_all_by_project :
  context -> pyval -> option db_filters -> db
  -> result (list (gmap string pyval)) * db.
Variable db_backup_get_all_by_volume :
  context -> pyval -> option db_filters -> db
  -> result (list (gmap string pyval)) * db.

Hypothesis jsonutils_roundtrip : forall d : gmap string pyval,
  jsonutils_loads
    (if PY3 then encode_utf8 (jsonutils_dumps d) else jsonutils_dumps d)
  = Return (Dict d).

Local Abbreviation Backup := (Backup context).
Local Abbreviation world := (world context db).
Local Abbreviation obj_get_field := (obj_get_field context db).
Local Abbreviation obj_getattr :=
  (obj_getattr context backup_name_template str_mod db).
Local Abbreviation obj_setattr := (obj_setattr context db).
Local Abbreviation dict_update :=
  (dict_update context backup_name_template str_mod db).
Local Abbreviation encode_record_on py3 :=
  (encode_record context backup_name_template str_mod py3 jsonutils_dumps db).
Local Abbreviation encode_record :=
  (encode_record context backup_name_template str_mod PY3 jsonutils_dumps db).
Local Abbreviation decode_record := (decode_record jsonutils_loads).
Local Abbreviation load_fields := (load_fields context db).
Local Abbreviation _from_db_object := (_from_db_object context db).
Local Abbreviation get_by_id := (get_by_id context db db_backup_get).
Local Abbreviation create := (create context db db_backup_create).
Local Abbreviation save :=
  (save context backup_name_template str_mod db db_backup_update).
Local Abbreviation assign_all := (assign_all context db).
Local Abbreviation destroy :=
  (destroy context backup_name_template str_mod db elevated
     db_backup_destroy).
Local Abbreviation obj_make_list_loop :=
  (obj_make_list_loop context db context_None).
Local Abbreviation obj_make_list := (obj_make_list context db context_None).
Local Abbreviation get_all :=
  (get_all context db context_None db_filters db_backup_get_all).
Local Abbreviation get_all_by_host :=
  (get_all_by_host context db context_None db_backup_get_all_by_host).
Local Abbreviation get_all_by_project :=
  (get_all_by_project context db context_None db_filters
     db_backup_get_all_by_project).
Local Abbreviation get_all_by_volume :=
  (get_all_by_volume context db context_None db_filters
     db_backup_get_all_by_volume).

(** *** Saving and creating when the database refuses *)



(** *** Saving right after a reset *)

Lemma save_unchanged (w : world) :
  changed_fields (self w) = ∅ -> save w = (Return tt, w).
Proof.
  intros H. rewrite save_run. cbv zeta.
  rewrite bool_decide_eq_false_2
    by (intros Hne; apply Hne; by apply changes_of_reset).
  destruct w as [[vals chg ctx] d calls]. cbn in *. by subst chg.
Qed.

Lemma create_returns_reset (w w' : world) :
  create w = (Return tt, w') -> changed_fields (self w') = ∅.
Proof.
  rewrite create_run. case_bool_decide; [discriminate|]. cbv zeta.
  destruct (db_backup_create _ _ (database w)) as [[row|e] d];
    [|discriminate].
  destruct (_from_db_object _ row _) as [[o'|e] w1] eqn:E;
    [|discriminate].
  intros [= <-].
  by apply from_db_object_returns in E as (-> & -> & _).
Qed.

Lemma save_returns_reset (w w' : world) :
  save w = (Return tt, w') -> changed_fields (self w') = ∅.
Proof.
  rewrite save_run. cbv zeta. case_bool_decide.
  - destruct (obj_values (self w) !! "id") as [id|]; [|discriminate].
    destruct (db_backup_update _ _ _ _) as [[[]|e] d]; [|discriminate].
    by intros [= <-].
  - by intros [= <-].
Qed.

Lemma get_by_id_returns_reset ctx id d calls o' (w' : world) :
  get_by_id ctx id d calls = (Return o', w') ->
  changed_fields (self w') = ∅.
Proof.
  rewrite get_by_id_run. cbv zeta.
  destruct (db_backup_get ctx id d) as [[row|e] d']; [|discriminate].
  intros E. by apply from_db_object_returns in E as (-> & -> & _).
Qed.

(** A [save] that follows a [create], a [save] or a [get_by_id] that
    returned, with no assignment in between, returns without calling the
    database and leaves everything as it is. *)
Theorem save_after_reset_is_silent (w : world) :
  (forall w', create w = (Return tt, w') -> save w' = (Return tt, w'))
  /\ (forall w', save w = (Return tt, w') -> save w' = (Return tt, w'))
  /\ (forall ctx id d calls o' w',
        get_by_id ctx id d calls = (Return o', w') ->
        save w' = (Return tt, w')).
Proof.
  split; [|split].
  - intros w' H. apply save_unchanged. by apply (create_returns_reset w).
  - intros w' H. apply save_unchanged. by apply (save_returns_reset w).
  - intros ctx id d calls o' w' H. apply save_unchanged.
    by apply (get_by_id_returns_reset ctx id d calls o').
Qed.

(** *** Fetching one record *)


(** *** What an assignment refuses *)

(** None is what an assignment refuses for the fields that are not
    nullable - the four identifiers and the three integers - with a
    ValueError, and what it stores, marking the field changed, for every
    other declared field. The derived names cannot be assigned at all.
    A refused assignment leaves the record as it was. *)
Theorem assignment_refusals attr (w : world) :
  (attr ∈ ["id"; "user_id"; "project_id"; "volume_id";
           "size"; "object_count"; "num_dependent_backups"] ->
   obj_setattr attr PNone w = (Raise ValueError, w))
  /\ (attr ∈ fields.*1 ->
      attr ∉ ["id"; "user_id"; "project_id"; "volume_id";
              "size"; "object_count"; "num_dependent_backups"] ->
      obj_setattr attr PNone w =
        (Return tt,
         mkWorld (mkBackup (<[attr := PNone]> (obj_values (self w)))
                           ({[attr]} ∪ changed_fields (self w))
                           (obj_context (self w)))
                 (database w) (db_calls w)))
  /\ (forall value, attr ∈ obj_extra_fields ->
        obj_setattr attr value w = (Raise AttributeError, w)).
Proof.
  split; [|split].
  - intros H. repeat (apply elem_of_cons in H as [-> | H]);
      try reflexivity. by apply elem_of_nil in H.
  - intros H Hn. cbn in H.
    repeat (apply elem_of_cons in H as [-> | H]);
      try reflexivity; try (by apply elem_of_nil in H);
      exfalso; apply Hn; clear; set_solver.
  - intros value H.
    repeat (apply elem_of_cons in H as [-> | H]);
      try reflexivity. by apply elem_of_nil in H.
Qed.

(** *** Loading a row that lacks a required value *)

Lemma load_fields_raises fs row : forall (w w' : world) e,
  (forall nf, nf ∈ fs -> nf ∈ fields) ->
  load_fields fs row w = (Raise e, w') -> e = ValueError.
Proof.
  induction fs as [|[attr f] fs IH]; intros w w' e Hfs; cbn [load_fields].
  - discriminate.
  - assert (Hf : field_of attr = Some f).
    { apply field_of_declared, Hfs. left. }
    unfold mbind.
    destruct (obj_setattr attr _ w) as [[[]|e1] w1] eqn:E.
    + apply IH. intros nf H. apply Hfs. by right.
    + intros [= <- _]. unfold obj_setattr in E. rewrite Hf in E.
      unfold mbind, lift in E.
      destruct (coerce f _) as [v|e2] eqn:Ec; [discriminate|].
      injection E as <- _. by apply coerce_raises in Ec.
Qed.

Lemma load_fields_returns_coerced fs row : forall (w w' : world),
  (forall nf, nf ∈ fs -> nf ∈ fields) ->
  load_fields fs row w = (Return tt, w') ->
  forall attr f, (attr, f) ∈ fs ->
    nullable f = false -> is_IntegerField f = false ->
    default PNone (row !! attr) <> PNone.
Proof.
  induction fs as [|[attr f] fs IH]; intros w w' Hfs; cbn [load_fields].
  - intros _ attr f H. by apply elem_of_nil in H.
  - assert (Hf : field_of attr = Some f).
    { apply field_of_declared, Hfs. left. }
    unfold mbind.
    destruct (obj_setattr attr _ w) as [[[]|e1] w1] eqn:E;
      [|discriminate].
    intros Hl attr' f' Hin Hnull Hint.
    apply elem_of_cons in Hin as [[= -> ->] | Hin].
    + intros Hv. unfold obj_setattr in E. rewrite Hf, Hv, Hint in E.
      unfold mbind, lift, coerce in E. rewrite Hnull in E. discriminate.
    + eapply IH; [|exact Hl|exact Hin|exact Hnull|exact Hint].
      intros nf H. apply Hfs. by right.
Qed.

Lemma from_db_object_raises ctx row (w w' : world) e :
  _from_db_object ctx row w = (Raise e, w') -> e = ValueError.
Proof.
  rewrite from_db_object_run.
  destruct (load_fields _ _ _) as [[[]|e1] w1] eqn:E;
    [discriminate|].
  intros [= <- _]. by apply (load_fields_raises fields row w w1).
Qed.

Lemma from_db_object_lacking ctx row (w : world) :
  lacks_required row = true ->
  (_from_db_object ctx row w).1 = Raise ValueError.
Proof.
  intros H. destruct (_from_db_object ctx row w) as [[o'|e] w'] eqn:E;
    cbn [fst].
  - exfalso. rewrite from_db_object_run in E.
    destruct (load_fields _ _ _) as [[[]|e1] w1] eqn:El;
      [|discriminate].
    unfold lacks_required in H. apply existsb_exists in H as ([attr f] & Hin & Hb).
    cbn [fst snd] in Hb.
    apply andb_prop in Hb as [Hb Hv]. apply andb_prop in Hb as [Hn Hi].
    apply negb_true_iff in Hn, Hi.
    apply (load_fields_returns_coerced fields row w w1 (fun _ H => H) El
             attr f); [by apply list_elem_of_In|exact Hn|exact Hi|].
    by destruct (default PNone (row !! attr)).
  - f_equal. by apply (from_db_object_raises ctx row w w').
Qed.

(** Only integers get a default: a row that leaves [id], [user_id],
    [project_id] or [volume_id] null, or does not mention it, cannot be
    loaded; [_from_db_object] raises ValueError. *)
Theorem load_requires_identifiers ctx row (w : world) attr :
  attr ∈ ["id"; "user_id"; "project_id"; "volume_id"] ->
  row !! attr = None \/ row !! attr = Some PNone ->
  (_from_db_object ctx row w).1 = Raise ValueError.
Proof.
  intros Hattr Hrow. apply from_db_object_lacking.
  unfold lacks_required. apply existsb_exists.
  exists (attr, mkField UUIDField false). split.
  - apply list_elem_of_In.
    repeat (apply elem_of_cons in Hattr as [-> | Hattr]);
      [| | | |by apply elem_of_nil in Hattr]; clear; set_solver.
  - cbn [fst snd nullable is_IntegerField ftype negb andb].
    by destruct Hrow as [-> | ->].
Qed.

(** *** Deleting a record *)


(** *** Lists of records *)

Lemma from_db_object_fresh ctx ctx0 row d calls :
  row_matches_schema row = true ->
  _from_db_object ctx row (mkWorld (new_Backup ctx0) d calls)
  = (Return (loaded_record ctx row),
     mkWorld (loaded_record ctx row) d calls).
Proof.
  intros H. by rewrite (from_db_object_ok _ _ _ _ _ H).
Qed.

Lemma obj_make_list_loop_ok ctx rows : forall objs d calls,
  Forall (fun row => row_matches_schema row = true) rows ->
  obj_make_list_loop ctx objs rows d calls
  = (Return (objs ++ map (loaded_record ctx) rows), (d, calls)).
Proof.
  induction rows as [|row rows IH]; intros objs d calls H;
    cbn [obj_make_list_loop map].
  - by rewrite app_nil_r.
  - apply Forall_cons in H as [Hrow H].
    rewrite (from_db_object_fresh _ _ _ _ _ Hrow).
    cbn [database db_calls]. rewrite (IH _ _ _ H).
    by rewrite <- app_assoc.
Qed.

Lemma obj_make_list_loop_lacking ctx rows : forall objs d calls,
  Exists (fun row => lacks_required row = true) rows ->
  (obj_make_list_loop ctx objs rows d calls).1 = Raise ValueError.
Proof.
  induction rows as [|row rows IH]; intros objs d calls H;
    cbn [obj_make_list_loop].
  - by apply Exists_nil in H.
  - destruct (_from_db_object ctx row _) as [[item|e] w1] eqn:E.
    + apply Exists_cons in H as [Hrow | H].
      * pose proof (from_db_object_lacking ctx row
          (mkWorld (new_Backup context_None) d calls) Hrow) as Hl.
        rewrite E in Hl. discriminate.
      * by apply IH.
    + cbn [fst]. f_equal. by apply from_db_object_raises in E.
Qed.

Lemma obj_make_list_ok ctx list_obj rows d calls :
  Forall (fun row => row_matches_schema row = true) rows ->
  obj_make_list ctx list_obj rows d calls
  = (Return (mkBackupList (Some (map (loaded_record ctx) rows)) ∅ ctx),
     (d, calls)).
Proof.
  intros H. unfold obj_make_list.
  by rewrite (obj_make_list_loop_ok _ _ _ _ _ H).
Qed.

Lemma obj_make_list_lacking ctx list_obj rows d calls :
  Exists (fun row => lacks_required row = true) rows ->
  (obj_make_list ctx list_obj rows d calls).1 = Raise ValueError.
Proof.
  intros H. unfold obj_make_list.
  pose proof (obj_make_list_loop_lacking ctx rows [] d calls H) as Hl.
  destruct (obj_make_list_loop _ _ _ _ _) as [[objs|e] s];
    cbn [fst] in *; congruence.
Qed.


(** A bulk fetch fails as a whole: if one of the rows that the database
    returns leaves a required identifier without a value, the fetch
    raises ValueError and returns no list, whatever the other rows
    are. *)
Theorem bulk_fetch_fails_as_a_whole ctx rows d d' calls :
  Exists (fun row => lacks_required row = true) rows ->
  (forall filters, db_backup_get_all ctx filters d = (Return rows, d') ->
     (get_all ctx filters d calls).1 = Raise ValueError)
  /\ (forall host, db_backup_get_all_by_host ctx host d = (Return rows, d') ->
        (get_all_by_host ctx host d calls).1 = Raise ValueError)
  /\ (forall project_id filters,
        db_backup_get_all_by_project ctx project_id filters d
        = (Return rows, d') ->
        (get_all_by_project ctx project_id filters d calls).1
        = Raise ValueError)
  /\ (forall volume_id filters,
        db_backup_get_all_by_volume ctx volume_id filters d
        = (Return rows, d') ->
        (get_all_by_volume ctx volume_id filters d calls).1
        = Raise ValueError).
Proof.
  intros H.
  split; [|split; [|split]].
  - intros filters E. unfold get_all. rewrite E.
    by apply obj_make_list_lacking.
  - intros host E. unfold get_all_by_host. rewrite E.
    by apply obj_make_list_lacking.
  - intros project_id filters E. unfold get_all_by_project. rewrite E.
    by apply obj_make_list_lacking.
  - intros volume_id filters E. unfold get_all_by_volume. rewrite E.
    by apply obj_make_list_lacking.
Qed.

(** *** The export codec on records that are not complete *)

Ltac eqb_strings :=
  repeat match goal with
         | |- context [String.eqb ?a ?b] =>
             let r := eval vm_compute in (String.eqb a b) in
             change (String.eqb a b) with r
         end;
  cbv iota.

Lemma dict_update_stops ks1 k ks2 e : forall kwargs (w : world),
  (forall j, j ∈ ks1 -> exists v, obj_getattr j w = (Return v, w)) ->
  obj_getattr k w = (Raise e, w) ->
  dict_update (ks1 ++ k :: ks2) kwargs w = (Raise e, w).
Proof.
  induction ks1 as [|j ks1 IH]; intros kwargs w Hks Hk;
    cbn [app dict_update]; unfold mbind.
  - by rewrite Hk.
  - destruct (Hks j) as [v Hv]; [by left|]. rewrite Hv.
    apply IH; [|exact Hk]. intros i Hi. apply Hks. by right.
Qed.

Lemma keys_of_split (o : Backup) :
  keys_of o
  = List.filter (fun attr => bool_decide (is_Some (obj_values o !! attr)))
      fields.*1
    ++ ["name"; "is_incremental"; "has_dependent_backups"].
Proof.
  unfold keys_of, obj_fields. rewrite List.filter_app. f_equal.
  - apply List.filter_ext_in. intros a Ha.
    apply list_elem_of_In, declared_not_extra in Ha.
    by rewrite (bool_decide_eq_false_2 _ Ha), orb_false_r.
  - cbn [obj_extra_fields List.filter].
    rewrite !(bool_decide_eq_true_2 (_ ∈ obj_extra_fields))
      by (unfold obj_extra_fields; clear; set_solver).
    by rewrite !orb_true_r.
Qed.

Lemma set_fields_readable (w : world) j :
  j ∈ List.filter
        (fun attr => bool_decide (is_Some (obj_values (self w) !! attr)))
        fields.*1 ->
  exists v, obj_getattr j w = (Return v, w).
Proof.
  rewrite list_elem_of_In, filter_In, <- list_elem_of_In.
  intros [Hd Hs]. apply bool_decide_eq_true in Hs as [v Hv].
  exists v. unfold obj_getattr.
  destruct (not_extra_eqb _ (declared_not_extra _ Hd)) as (-> & -> & ->).
  destruct (field_of_is_Some _ Hd) as [f ->].
  by rewrite obj_get_field_run, Hv.
Qed.


(** *** The export codec with any extra entries *)


(** When the JSON text is made of ASCII characters, as [jsonutils.dumps]
    makes it, the token does not depend on the interpreter: the encoding
    to UTF-8 that Python 3 adds changes nothing. *)
Theorem token_independent_of_interpreter kwargs (w : world) :
  (forall d, ascii_only (jsonutils_dumps d)) ->
  encode_record_on true kwargs w = encode_record_on false kwargs w.
Proof.
  intros Hascii. rewrite !encode_record_run.
  destruct (dict_update _ _ _) as [[m|e] w']; [|reflexivity].
  by rewrite (encode_utf8_ascii _ (Hascii m)).
Qed.

(** A token can be wrapped anew: a line break or a blank put anywhere
    in it changes nothing of what [decode_record] returns or raises. *)
Theorem decode_record_skips_blanks (s1 s2 : list ascii) (c : ascii) :
  is_blank c = true ->
  decode_record (s1 ++ c :: s2) = decode_record (s1 ++ s2).
Proof.
  intros Hc. unfold decode_record, Base64.decodestring,
    Base64.a2b_base64.
  by rewrite (a2b_loop_blank c s2 s1 0 0 0 Hc).
Qed.

(** *** From the database to a token *)

(** A record fetched by [get_by_id] from a row that fits the schema can
    always be exported, provided its name can be formatted: every field
    is set after the load, so [encode_record] returns a token, and the
    token decodes to a mapping that holds each declared field with the
    value loaded from the row, and the name. *)
Theorem fetched_record_exports ctx id d calls row s nm :
  (db_backup_get ctx id d).1 = Return row ->
  row_matches_schema row = true ->
  row !! "id" = Some (PStr s) ->
  str_mod backup_name_template (PStr s) = Return nm ->
  exists o w' token m,
    get_by_id ctx id d calls = (Return o, w')
    /\ encode_record ∅ w' = (Return token, w')
    /\ decode_record token = Return (Dict m)
    /\ (forall attr f, field_of attr = Some f ->
          m !! attr = Some (loaded_value f row attr))
    /\ m !! "name" = Some (PStr nm).
Proof using Type jsonutils_roundtrip.
  intros Hget Hrow Hid Hnm.
  set (o := loaded_record ctx row).
  set (w' := mkWorld o (db_backup_get ctx id d).2 (calls ++ [BackupGet ctx id])
             : world).
  assert (Hrun : get_by_id ctx id d calls = (Return o, w')).
  { rewrite get_by_id_run. cbv zeta. subst w'.
    destruct (db_backup_get ctx id d) as [r d']. cbn [fst snd] in *.
    subst r. by rewrite (from_db_object_fresh _ _ _ _ _ Hrow). }
  assert (Hlook : forall attr f, field_of attr = Some f ->
            obj_values o !! attr = Some (loaded_value f row attr)).
  { intros attr f Hf. subst o. by rewrite loaded_record_lookup, Hf. }
  assert (Hoid : obj_values (self w') !! "id" = Some (PStr s)).
  { cbn [self w']. rewrite (Hlook "id" (mkField UUIDField false) eq_refl).
    unfold loaded_value. by rewrite Hid. }
  destruct (encode_then_decode context backup_name_template str_mod PY3
              jsonutils_dumps jsonutils_loads db jsonutils_roundtrip
              ∅ w' (PStr s) _ _ nm Hoid
              (Hlook "parent_id" (mkField StringField true) eq_refl)
              (Hlook "num_dependent_backups" (mkField IntegerField false)
                 eq_refl) Hnm)
    as (token & He & Hd).
  exists o, w', token, (dict_view nm o).
  split; [exact Hrun|]. split; [exact He|].
  split; [by rewrite (right_id_L ∅ (∪)) in Hd|].
  split.
  - intros attr f Hf. rewrite dict_view_lookup.
    assert (Hd' : attr ∈ fields.*1).
    { apply field_of_Some in Hf. apply list_elem_of_fmap. by exists (attr, f). }
    pose proof (declared_not_extra _ Hd') as Hne.
    rewrite elem_of_extra in Hne.
    rewrite !decide_False by (clear -Hne; tauto).
    rewrite decide_True by done. by apply Hlook.
  - by rewrite dict_view_lookup, decide_True.
Qed.

(** *** Assignments, read back and saved *)

(** A declared field that has just been assigned reads as the value the
    field made of the one given - text for a String field, whatever was
    assigned - the change-set reports that value, and no other field has
    moved. *)
Theorem assignment_then_read attr f value (w w' : world) :
  field_of attr = Some f ->
  obj_setattr attr value w = (Return tt, w') ->
  obj_getattr attr w' = (coerce f value, w')
  /\ changes_of (self w') !! attr = obj_values (self w') !! attr
  /\ (forall attr', attr' <> attr ->
        obj_values (self w') !! attr' = obj_values (self w) !! attr').
Proof.
  intros Hf H.
  assert (Hd : attr ∈ fields.*1).
  { apply field_of_Some in Hf. apply list_elem_of_fmap. by exists (attr, f). }
  destruct (coerce f value) as [v|e] eqn:Hc.
  - rewrite (obj_setattr_declared _ _ _ _ _ _ _ Hf Hc) in H.
    injection H as <-. cbn [self obj_values changed_fields].
    split; [|split].
    + unfold obj_getattr.
      destruct (not_extra_eqb _ (declared_not_extra _ Hd)) as (-> & -> & ->).
      rewrite Hf, obj_get_field_run. cbn [self obj_values].
      by rewrite lookup_insert_eq.
    + unfold changes_of. cbn [obj_values changed_fields].
      rewrite lookup_insert_eq. apply map_lookup_filter_Some.
      split; [by rewrite lookup_insert_eq|]. cbn. clear. set_solver.
    + intros attr' Hne. by rewrite lookup_insert_ne.
  - rewrite (obj_setattr_refused _ _ _ _ _ _ _ Hf Hc) in H. discriminate.
Qed.

Lemma assign_all_sets l : forall (w w' : world),
  assign_all l w = (Return tt, w') ->
  (forall a, is_Some (obj_values (self w) !! a) ->
             is_Some (obj_values (self w') !! a))
  /\ (forall a, a ∈ declared_names l -> is_Some (obj_values (self w') !! a)).
Proof.
  induction l as [|[a v] l IH]; intros w w' H.
  - injection H as <-. split; [done|]. intros a Ha. by apply elem_of_nil in Ha.
  - cbn [assign_all] in H. unfold mbind in H.
    destruct (obj_setattr a v w) as [[[]|e] w1] eqn:E; [|discriminate].
    apply obj_setattr_returns in E as (_ & _ & _ & _ & Hkeep & Hset).
    apply IH in H as (Hkeep' & Hset').
    split; [intros b Hb; by apply Hkeep', Hkeep|].
    intros b Hb. unfold declared_names in Hb.
    cbn [fmap list_fmap List.filter fst] in Hb.
    case_bool_decide as Hd.
    + apply elem_of_cons in Hb as [-> | Hb]; [by apply Hkeep', Hset|].
      by apply Hset'.
    + by apply Hset'.
Qed.


End BackupMoreTheory.

(** *** The further properties in the concrete settings *)



(** A row with no [volume_id] cannot be loaded. *)
Lemma load_requires_identifiers_witness :
  (_from_db_object Store.context Store.db true Store.row_bad
     (mkWorld (new_Backup false) ∅ [])).1
  = Raise ValueError.
Proof.
  apply (load_requires_identifiers Store.context Store.db true Store.row_bad
           (mkWorld (new_Backup false) ∅ []) "volume_id").
  - set_solver.
  - left. reflexivity.
Defined.



(** One row without [volume_id] among the rows returned, and the fetch
    fails. *)
Lemma bulk_fetch_fails_as_a_whole_witness :
  (get_all Store.context Store.db false unit
     (fun _ _ d => (Return [Store.row_a; Store.row_bad; Store.row_b], d))
     true None Store.rows []).1
  = Raise ValueError.
Proof.
  assert (Hbad : Exists (fun row => lacks_required row = true)
                   [Store.row_a; Store.row_bad; Store.row_b]).
  { apply Exists_cons_tl, Exists_cons_hd. reflexivity. }
  destruct (bulk_fetch_fails_as_a_whole Store.context Store.db false unit
              (fun _ _ d =>
                 (Return [Store.row_a; Store.row_bad; Store.row_b], d))
              (fun _ _ d => (Return [], d))
              (fun _ _ _ d => (Return [], d))
              (fun _ _ _ d => (Return [], d))
              true [Store.row_a; Store.row_bad; Store.row_b]
              Store.rows Store.rows [] Hbad)
    as [H _].
  apply (H None). reflexivity.
Defined.


(** With the JSON writer of this development, whose text is ASCII, the
    token of the record of the scenario is the same under both
    interpreters. *)
Lemma token_independent_of_interpreter_witness :
  encode_record Sample.context Sample.backup_name_template Sample.str_mod
    true Json.dumps Sample.db ∅ (Sample.world_of Sample.a1)
  = encode_record Sample.context Sample.backup_name_template Sample.str_mod
      false Json.dumps Sample.db ∅ (Sample.world_of Sample.a1).
Proof.
  apply (token_independent_of_interpreter Sample.context
           Sample.backup_name_template Sample.str_mod Json.dumps Sample.db
           ∅ (Sample.world_of Sample.a1) dumps_ascii).
Defined.

(** The row [a1] of the store, fetched and exported: the decoded mapping
    holds the row's [status], 0 for its [size] and the name. *)
Lemma fetched_record_exports_witness :
  exists o w' token m,
    get_by_id Store.context Store.db Store.backup_get true (PStr "a1")
      Store.rows [] = (Return o, w')
    /\ encode_record Store.context Sample.backup_name_template Sample.str_mod
         false Json.dumps Store.db ∅ w' = (Return token, w')
    /\ decode_record Json.loads token = Return (Dict m)
    /\ m !! "status" = Some (PStr "available")
    /\ m !! "size" = Some (PInt 0)
    /\ m !! "name" = Some (PStr "backup-a1").
Proof.
  destruct (fetched_record_exports Store.context Sample.backup_name_template
              Sample.str_mod false Json.dumps Json.loads Store.db
              Store.backup_get (sample_json_roundtrip false)
              true (PStr "a1") Store.rows [] Store.row_a "a1" "backup-a1"
              eq_refl eq_refl eq_refl eq_refl)
    as (o & w' & token & m & Hget & He & Hd & Hf & Hn).
  exists o, w', token, m.
  split; [exact Hget|]. split; [exact He|]. split; [exact Hd|].
  split; [|split; [|exact Hn]].
  - rewrite (Hf "status" (mkField StringField true) eq_refl). reflexivity.
  - rewrite (Hf "size" (mkField IntegerField false) eq_refl). reflexivity.
Defined.

(** The status of a stored record set to the number 5, then a size: the
    String field reads back the text, and [save] sends the two fields. *)
Lemma assignment_then_read_witness :
  exists w',
    obj_setattr Sample.context Sample.db "status" (PInt 5)
      Sample.world_edited = (Return tt, w')
    /\ obj_getattr Sample.context Sample.backup_name_template Sample.str_mod
         Sample.db "status" w' = (Return (PStr "5"), w')
    /\ obj_values (self w') !! "id" = Some (PStr "a1").
Proof.
  set (w' := (obj_setattr Sample.context Sample.db "status" (PInt 5)
                Sample.world_edited).2).
  assert (Hset : obj_setattr Sample.context Sample.db "status" (PInt 5)
                   Sample.world_edited = (Return tt, w'))
    by (vm_compute; reflexivity).
  destruct (assignment_then_read Sample.context Sample.backup_name_template
              Sample.str_mod Sample.db "status" (mkField StringField true)
              (PInt 5) Sample.world_edited w' eq_refl Hset)
    as (Hread & _ & Hother).
  exists w'. split; [exact Hset|]. split; [exact Hread|].
  rewrite (Hother "id"); [reflexivity|discriminate].
Defined.


(** The token of the empty mapping, with a line break in its middle. *)
Lemma decode_record_skips_blanks_witness :
  decode_record Json.loads
    (list_ascii_of_string "e3" ++ "010"%char :: list_ascii_of_string "0=")
  = decode_record Json.loads (list_ascii_of_string "e30=")
  /\ decode_record Json.loads (list_ascii_of_string "e30=") = Return (Dict ∅).
Proof.
  split; [|vm_compute; reflexivity].
  apply (decode_record_skips_blanks Json.loads (list_ascii_of_string "e3")
           (list_ascii_of_string "0=") "010"%char).
  reflexivity.
Defined.
